(** * ProximityInfoState: a shallow embedding of
      [native/jni/src/proximity_info_state.cpp]

    The C++ class [ProximityInfoState] is a thin orchestrator: its
    [initInputParams] threads the object's fields through the helpers of
    [ProximityInfoStateUtils] and of the layout object [ProximityInfo], and
    its query methods read the fields back.  The embedding keeps that shape:

    - [int] values are [Z] (two's-complement wrap-around written out where
      the code does arithmetic), [float] values are IEEE-754 binary32
      numbers of [SpecFloat];
    - [std::vector] fields are lists, read with a checked lookup;
      [hash_map_compat<int, float>] is a [gmap Z float];
    - pointers that may be null are options;
    - the classes and macros declared in headers that are not part of the
      translation unit ([defines.h], [proximity_info.h],
      [proximity_info_state_utils.h], [char_utils.h]) are interfaces
      (records of constants and functions). *)

From Stdlib Require Import ZArith Lia Bool List SpecFloat.
From stdpp Require Import base option list gmap.

Local Open Scope Z_scope.

(** ** Machine numbers *)

(** [int]: 32-bit two's complement. *)
Module Int32.
Definition min_signed : Z := - 2 ^ 31.
Definition max_signed : Z := 2 ^ 31 - 1.
Definition in_range (z : Z) : Prop := min_signed <= z <= max_signed.
Definition wrap (z : Z) : Z := (z + 2 ^ 31) mod 2 ^ 32 - 2 ^ 31.
Definition add (a b : Z) : Z := wrap (a + b).
Definition sub (a b : Z) : Z := wrap (a - b).
Definition mul (a b : Z) : Z := wrap (a * b).
End Int32.

(** [float]: IEEE-754 binary32, round to nearest even. *)
Module Float32.
Definition prec : Z := 24.
Definition emax : Z := 128.
Definition float : Type := spec_float.
Definition valid (x : float) : bool := valid_binary prec emax x.
Definition is_nan (x : float) : bool :=
  match x with S754_nan => true | _ => false end.
Definition zero : float := S754_zero false.
Definition mul : float -> float -> float := SFmul prec emax.
Definition sqrt : float -> float := SFsqrt prec emax.
Definition ltb : float -> float -> bool := SFltb.
Definition leb : float -> float -> bool := SFleb.
(** [static_cast<float>(int)] and the implicit conversion of an [int]
    that is returned as a [float]. *)
Definition of_int (z : Z) : float := binary_normalize prec emax z 0 false.
End Float32.

Abbreviation float := Float32.float.

(** ** The headers the translation unit includes *)

(** The macros of [defines.h] that the file uses.  Their values are not
    part of the translation unit; they are [int] constants. *)
Class Defines := {
  MAX_WORD_LENGTH : Z;
  MAX_PROXIMITY_CHARS_SIZE : Z;
  ADDITIONAL_PROXIMITY_CHAR_DELIMITER_CODE : Z;
  MAX_POINT_TO_KEY_LENGTH : Z;
  NOT_AN_INDEX : Z
}.

(** Modelled from the spec: the [min] macro of [defines.h], on floats
    (spec 4.8 writes the result of [getPointToKeyLength] as a [min]); the
    usual C definition [((a) < (b) ? (a) : (b))]. *)
Definition min (a b : float) : float := if Float32.ltb a b then a else b.

(** The free functions of [char_utils.h] and [proximity_info_utils.h]. *)
Class CharUtils := {
  toBaseLowerCase : Z -> Z;
  isSkippableCodePoint : Z -> bool;
  (* ProximityInfoUtils::pointToLineSegSquaredDistanceFloat(x, y, x1, y1, x2, y2, extend) *)
  pointToLineSegSquaredDistanceFloat : Z -> Z -> Z -> Z -> Z -> Z -> bool -> float
}.

(** [enum ProximityType]. *)
Inductive ProximityType : Set :=
  | EQUIVALENT_CHAR
  | NEAR_PROXIMITY_CHAR
  | UNRELATED_CHAR
  | ADDITIONAL_PROXIMITY_CHAR.

(** The layout object, class [ProximityInfo] of [proximity_info.h]: the
    member functions that [proximity_info_state.cpp] calls. *)
Record ProximityInfo := {
  hasTouchPositionCorrectionData : bool;
  getMostCommonKeyWidth : Z;
  getMostCommonKeyWidthSquare : Z;
  getKeyCount : Z;
  getCellHeight : Z;
  getCellWidth : Z;
  getGridWidth : Z;
  getGridHeight : Z;
  (* initializeProximities(inputCodes, xs, ys, inputSize, inputProximities):
     the last argument is the array it fills *)
  initializeProximities :
    option (list Z) -> option (list Z) -> option (list Z) -> Z -> list Z -> list Z;
  getKeyIndexOf : Z -> Z;
  getKeyCenterXOfKeyIdG : Z -> Z;
  getKeyCenterYOfKeyIdG : Z -> Z;
  hasSpaceProximityAt : Z -> Z -> bool
}.

(** ** The object *)

(** [std::bitset<MAX_KEY_COUNT_IN_A_KEYBOARD>]: the set of the key ids
    whose bit is set. *)
Abbreviation NearKeysVector := (gset Z).

(** The fields of [ProximityInfoState] that the translation unit reads or
    writes.  [mProximityInfo] is a pointer, null before the first
    [initInputParams]. *)
Record ProximityInfoState := {
  mProximityInfo : option ProximityInfo;
  mMaxPointToKeyLength : float;
  mAverageSpeed : float;
  mHasTouchPositionCorrectionData : bool;
  mMostCommonKeyWidthSquare : Z;
  mKeyCount : Z;
  mCellHeight : Z;
  mCellWidth : Z;
  mGridHeight : Z;
  mGridWidth : Z;
  mIsContinuationPossible : bool;
  mSampledInputXs : list Z;
  mSampledInputYs : list Z;
  mSampledTimes : list Z;
  mSampledInputIndice : list Z;
  mSampledLengthCache : list float;
  mBeelineSpeedPercentiles : list Z;
  mSampledDistanceCache_G : list float;
  mSpeedRates : list float;
  mDirections : list float;
  mCharProbabilities : list (gmap Z float);
  mSampledNearKeySets : list NearKeysVector;
  mSampledSearchKeySets : list NearKeysVector;
  mSampledSearchKeyVectors : list (list Z);
  mTouchPositionCorrectionEnabled : bool;
  mInputProximities : list Z;          (* int[MAX_PROXIMITY_CHARS_SIZE * MAX_WORD_LENGTH] *)
  mNormalizedSquaredDistances : list Z;
  mSampledInputSize : Z;
  mPrimaryInputWord : list Z;           (* int[MAX_WORD_LENGTH] *)
  mMostProbableStringProbability : float;
  mMostProbableString : list Z          (* int[MAX_WORD_LENGTH] *)
}.

(** The five parallel vectors of the sampled polyline, in the order in
    which the helpers take them: xs, ys, times, length cache, indices. *)
Record Sampled := {
  sampledXs : list Z;
  sampledYs : list Z;
  sampledTimes : list Z;
  sampledLengthCache : list float;
  sampledIndice : list Z
}.

Definition sampled_of (st : ProximityInfoState) : Sampled :=
  {| sampledXs := mSampledInputXs st;
     sampledYs := mSampledInputYs st;
     sampledTimes := mSampledTimes st;
     sampledLengthCache := mSampledLengthCache st;
     sampledIndice := mSampledInputIndice st |}.

(** The static helpers of [ProximityInfoStateUtils]
    ([proximity_info_state_utils.h]) that [initInputParams] calls, except
    [trimLastTwoTouchPoints], which is modelled below.  Each takes its
    arguments in the order of the call; a vector or array that is passed to
    be updated is an argument and a component of the result. *)
Class ProximityInfoStateUtils := {
  (* (inputSize, xs, ys, times, sampledInputSize, sampledXs, sampledYs,
      sampledTimes, sampledInputIndice) *)
  checkAndReturnIsContinuationPossible :
    Z -> option (list Z) -> option (list Z) -> option (list Z) ->
    Z -> list Z -> list Z -> list Z -> list Z -> bool;
  (* (proximityInfo, maxPointToKeyLength, inputProximities, xs, ys, times,
      pointerIds, inputSize, isGeometric, pointerId, pushTouchPointStartIndex,
      the five sampled vectors): the new sampled size and the vectors *)
  updateTouchPoints :
    ProximityInfo -> float -> list Z -> list Z -> list Z -> option (list Z) ->
    option (list Z) -> Z -> bool -> Z -> Z -> Sampled -> Z * Sampled;
  (* (inputSize, xs, ys, times, lastSavedInputSize, sampledInputSize, the
      five sampled vectors, speedRates, directions): the average speed, the
      speed rates and the directions *)
  refreshSpeedRates :
    Z -> option (list Z) -> option (list Z) -> option (list Z) -> Z -> Z ->
    Sampled -> list float -> list float -> float * list float * list float;
  (* (mostCommonKeyWidth, averageSpeed, inputSize, xs, ys, times,
      sampledInputSize, sampledXs, sampledYs, sampledInputIndice,
      beelineSpeedPercentiles) *)
  refreshBeelineSpeedRates :
    Z -> float -> Z -> option (list Z) -> option (list Z) -> option (list Z) ->
    Z -> list Z -> list Z -> list Z -> list Z -> list Z;
  (* (proximityInfo, sampledInputSize, lastSavedInputSize, sampledXs,
      sampledYs, nearKeySets, distanceCache) *)
  initGeometricDistanceInfos :
    ProximityInfo -> Z -> Z -> list Z -> list Z ->
    list NearKeysVector -> list float -> list NearKeysVector * list float;
  (* (maxPointToKeyLength, mostCommonKeyWidth, keyCount, lastSavedInputSize,
      sampledInputSize, sampledXs, sampledYs, speedRates, lengthCache,
      distanceCache, nearKeySets, charProbabilities) *)
  updateAlignPointProbabilities :
    float -> Z -> Z -> Z -> Z -> list Z -> list Z -> list float -> list float ->
    list float -> list NearKeysVector -> list (gmap Z float) -> list (gmap Z float);
  (* (proximityInfo, sampledInputSize, lastSavedInputSize, lengthCache,
      nearKeySets, searchKeySets, searchKeyVectors) *)
  updateSampledSearchKeySets :
    ProximityInfo -> Z -> Z -> list float -> list NearKeysVector ->
    list NearKeysVector -> list (list Z) -> list NearKeysVector * list (list Z);
  (* (proximityInfo, sampledInputSize, charProbabilities, codePointBuf):
      the probability and the buffer, which the helper fills (spec 4.8) *)
  getMostProbableStringOf :
    ProximityInfo -> Z -> list (gmap Z float) -> float * list Z;
  (* (inputSize, inputProximities, primaryInputWord) *)
  initPrimaryInputWord : Z -> list Z -> list Z -> list Z;
  (* (proximityInfo, inputSize, xs, ys, inputProximities, sampledXs,
      sampledYs, normalizedSquaredDistances) *)
  initNormalizedSquaredDistances :
    ProximityInfo -> Z -> option (list Z) -> option (list Z) -> list Z ->
    list Z -> list Z -> list Z -> list Z
}.

(** ** Tap-mode proximity classification: [getMatchedProximityId] *)

(** Reads through a [const int *]: the computation carries the list of the
    indices it has read so far (most recent first) and fails on a read
    outside the array the pointer points into. *)
Definition Scan (A : Type) : Type := list Z -> option (A * list Z).

#[global] Instance Scan_ret : MRet Scan := fun A a log => Some (a, log).
#[global] Instance Scan_bind : MBind Scan := fun A B f m log =>
  match m log with
  | Some (a, log') => f a log'
  | None => None
  end.

(** [p[j]] *)
Definition read (p : list Z) (j : Z) : Scan Z := fun log =>
  if j <? 0 then None
  else match p !! Z.to_nat j with
       | Some v => Some (v, j :: log)
       | None => None
       end.

(** [if (proximityIndex) *proximityIndex = j;] on a pointer that is null
    ([None]) or points to an [int] ([Some] of its value). *)
Definition store (proximityIndex : option Z) (j : Z) : option Z :=
  match proximityIndex with
  | Some _ => Some j
  | None => None
  end.

Section Classification.
Context `{D : Defines} `{CU : CharUtils}.

(** Modelled from the spec: [getProximityCodePointsAt] is an inline member
    of the header, absent from the sources.  Spec 4.2 and 6: each input
    slot has its own list of at most [MAX_PROXIMITY_CHARS_SIZE] code
    points; the lists are laid out one after the other in
    [mInputProximities].  The result is the pointer to the slot's first
    entry: the array from there on. *)
Definition getProximityCodePointsAt (st : ProximityInfoState) (index : Z) : list Z :=
  drop (Z.to_nat (index * MAX_PROXIMITY_CHARS_SIZE)) (mInputProximities st).

(** The loop
    [while (j < MAX_PROXIMITY_CHARS_SIZE
            && currentCodePoints[j] > ADDITIONAL_PROXIMITY_CHAR_DELIMITER_CODE)]
    with its body, which occurs twice in the function.  The result is
    [inl j] when the body returns at [j] (a match) and [inr j] when the
    loop is left with that [j].  [fuel] bounds the number of iterations;
    the loop fails when it is exhausted. *)
Fixpoint scan_loop (fuel : nat) (p : list Z) (c baseLowerC : Z) (j : Z)
  : Scan (Z + Z) :=
  match fuel with
  | O => fun _ => None
  | S fuel' =>
    if j <? MAX_PROXIMITY_CHARS_SIZE then
      cj ← read p j;
      if ADDITIONAL_PROXIMITY_CHAR_DELIMITER_CODE <? cj then
        cj1 ← read p j;
        matched ← (if cj1 =? baseLowerC then mret true
                   else cj2 ← read p j; mret (cj2 =? c));
        if matched : bool then mret (inl j)
        else scan_loop fuel' p c baseLowerC (j + 1)
      else mret (inr j)
    else mret (inr j)
  end.

(** One more iteration than the loop can make, so that leaving the loop
    at [j = MAX_PROXIMITY_CHARS_SIZE] is not counted as a failure. *)
Definition scan_fuel : nat := S (Z.to_nat MAX_PROXIMITY_CHARS_SIZE).

(** The result is the returned [ProximityType] and the contents of
    [*proximityIndex] on return. *)
Definition getMatchedProximityId (st : ProximityInfoState) (index c : Z)
    (checkProximityChars : bool) (proximityIndex : option Z)
  : Scan (ProximityType * option Z) :=
  let currentCodePoints := getProximityCodePointsAt st index in
  firstCodePoint ← read currentCodePoints 0;
  let baseLowerC := toBaseLowerCase c in
  if (firstCodePoint =? baseLowerC) || (firstCodePoint =? c) then
    mret (EQUIVALENT_CHAR, proximityIndex)
  else if negb checkProximityChars then mret (UNRELATED_CHAR, proximityIndex)
  else if toBaseLowerCase firstCodePoint =? baseLowerC then
    mret (NEAR_PROXIMITY_CHAR, proximityIndex)
  else
    r ← scan_loop scan_fuel currentCodePoints c baseLowerC 1;
    match r with
    | inl j => mret (NEAR_PROXIMITY_CHAR, store proximityIndex j)
    | inr j =>
      isDelim ← (if j <? MAX_PROXIMITY_CHARS_SIZE then
                   cj ← read currentCodePoints j;
                   mret (cj =? ADDITIONAL_PROXIMITY_CHAR_DELIMITER_CODE)
                 else mret false);
      if isDelim : bool then
        r' ← scan_loop scan_fuel currentCodePoints c baseLowerC (j + 1);
        match r' with
        | inl j' => mret (ADDITIONAL_PROXIMITY_CHAR, store proximityIndex j')
        | inr _ => mret (UNRELATED_CHAR, proximityIndex)
        end
      else mret (UNRELATED_CHAR, proximityIndex)
    end.

(** *** The classification as the specification words it *)

(** The slot's list [C[0..K-1]]: the [MAX_PROXIMITY_CHARS_SIZE] entries of
    input slot [index]. *)
Definition slot (st : ProximityInfoState) (index : Z) : list Z :=
  take (Z.to_nat MAX_PROXIMITY_CHARS_SIZE) (getProximityCodePointsAt st index).

(** [x] is [q] or [q' = baseLowerCase(q)]. *)
Definition is_match (q x : Z) : bool := (x =? q) || (x =? toBaseLowerCase q).

(** The longest prefix of entries above [DELIM]. *)
Fixpoint above_delim (l : list Z) : list Z :=
  match l with
  | x :: l' =>
    if ADDITIONAL_PROXIMITY_CHAR_DELIMITER_CODE <? x then x :: above_delim l' else []
  | [] => []
  end.

(** Position of the first match in a list, if any. *)
Fixpoint first_match (q : Z) (l : list Z) : option nat :=
  match l with
  | x :: l' => if is_match q x then Some O else S <$> first_match q l'
  | [] => None
  end.

(** Steps 1 to 7 of spec 6, on the slot's list [C] and the query [q]: the
    class and, for a match found by a scan, its index [j] in [C]. *)
Definition matchedProximity (C : list Z) (q : Z) (checkProximity : bool)
  : ProximityType * option Z :=
  match C with
  | [] => (UNRELATED_CHAR, None)
  | c0 :: rest =>
    if is_match q c0 then (EQUIVALENT_CHAR, None)
    else if negb checkProximity then (UNRELATED_CHAR, None)
    else if toBaseLowerCase c0 =? toBaseLowerCase q then (NEAR_PROXIMITY_CHAR, None)
    else
      let primary := above_delim rest in
      match first_match q primary with
      | Some k => (NEAR_PROXIMITY_CHAR, Some (1 + Z.of_nat k))
      | None =>
        match drop (length primary) rest with
        | d :: rest' =>
          if d =? ADDITIONAL_PROXIMITY_CHAR_DELIMITER_CODE then
            match first_match q (above_delim rest') with
            | Some k =>
              (ADDITIONAL_PROXIMITY_CHAR,
               Some (1 + Z.of_nat (length primary) + 1 + Z.of_nat k))
            | None => (UNRELATED_CHAR, None)
            end
          else (UNRELATED_CHAR, None)
        | [] => (UNRELATED_CHAR, None)
        end
      end
  end.

(** The out-parameter after the call: an index found by a scan is
    written through a non-null pointer; otherwise it is left as it was. *)
Definition written (proximityIndex found : option Z) : option Z :=
  match found with
  | Some j => store proximityIndex j
  | None => proximityIndex
  end.

(** The indices of one slot. *)
Definition in_slot (j : Z) : Prop := 0 <= j < MAX_PROXIMITY_CHARS_SIZE.

(** What a scan started at [j] finds in the rest [l] of the slot: the
    index of the first match above DELIM, or the index at which the scan
    stops. *)
Definition scan_result (q : Z) (j : Z) (l : list Z) : Z + Z :=
  match first_match q (above_delim l) with
  | Some k => inl (j + Z.of_nat k)
  | None => inr (j + Z.of_nat (length (above_delim l)))
  end.

End Classification.

(** ** Initialisation and the queries *)

(** Modelled from the spec: the [ASSERT] macro of [defines.h].  Spec 7:
    "Input validity is enforced by precondition checks on entry": the call
    is abandoned when the condition fails. *)
Definition ASSERT (cond : bool) : option unit := if cond then Some () else None.

(** [v[i]] on a [std::vector], with an [int] index: undefined (here a
    failure) outside the vector. *)
Definition at_index {A : Type} (v : list A) (i : Z) : option A :=
  if i <? 0 then None else v !! Z.to_nat i.

(** [v.pop_back(); v.pop_back();] *)
Definition pop2 {A : Type} (v : list A) : list A := take (length v - 2)%nat v.

(** Modelled from the spec: [ProximityInfoStateUtils::trimLastTwoTouchPoints]
    is absent from the sources.  Spec 4.3: "The last two entries of every
    sampled parallel array are dropped [...]  The resampler resumes emission
    starting from pushStart = SrcIdx[M-2]+1". *)
Definition trimLastTwoTouchPoints (s : Sampled) : Z * Sampled :=
  let M := length (sampledIndice s) in
  let pushStart := Int32.add (default 0 (sampledIndice s !! (M - 2)%nat)) 1 in
  (pushStart,
   {| sampledXs := pop2 (sampledXs s);
      sampledYs := pop2 (sampledYs s);
      sampledTimes := pop2 (sampledTimes s);
      sampledLengthCache := pop2 (sampledLengthCache s);
      sampledIndice := pop2 (sampledIndice s) |}).

Definition no_samples : Sampled :=
  {| sampledXs := []; sampledYs := []; sampledTimes := [];
     sampledLengthCache := []; sampledIndice := [] |}.

Section State.
Context `{D : Defines} `{CU : CharUtils} `{U : ProximityInfoStateUtils}.

(** The entry assertion of [initInputParams]. *)
Definition initInputParams_precondition (isGeometric : bool) (inputSize : Z) : bool :=
  isGeometric || (inputSize <? MAX_WORD_LENGTH).

(** [initInputParams].  The array arguments are pointers that may be null.
    The two [DEBUG_] blocks only log. *)
Definition initInputParams (st : ProximityInfoState)
    (pointerId : Z) (maxPointToKeyLength : float) (proximityInfo : ProximityInfo)
    (inputCodes : option (list Z)) (inputSize : Z)
    (xCoordinates yCoordinates times pointerIds : option (list Z))
    (isGeometric : bool) : option ProximityInfoState :=
  ASSERT (initInputParams_precondition isGeometric inputSize);;
  let isContinuationPossible :=
    checkAndReturnIsContinuationPossible inputSize xCoordinates yCoordinates times
      (mSampledInputSize st) (mSampledInputXs st) (mSampledInputYs st)
      (mSampledTimes st) (mSampledInputIndice st) in
  (* memset(mInputProximities, 0, sizeof(mInputProximities)) *)
  let inputProximities0 :=
    replicate (Z.to_nat (MAX_PROXIMITY_CHARS_SIZE * MAX_WORD_LENGTH)) 0 in
  let inputProximities :=
    if negb isGeometric && (pointerId =? 0)
    then initializeProximities proximityInfo inputCodes xCoordinates yCoordinates
           inputSize inputProximities0
    else inputProximities0 in
  (* Setup touch points *)
  let continue := isContinuationPossible && (1 <? Z.of_nat (length (mSampledInputIndice st))) in
  let '(pushTouchPointStartIndex, sampled0) :=
    if continue then trimLastTwoTouchPoints (sampled_of st) else (0, no_samples) in
  let lastSavedInputSize :=
    if continue then Z.of_nat (length (sampledXs sampled0)) else 0 in
  let kept {A} (v : list A) : list A := if continue then v else [] in
  let distanceCache0 := kept (mSampledDistanceCache_G st) in
  let nearKeySets0 := kept (mSampledNearKeySets st) in
  let searchKeySets0 := kept (mSampledSearchKeySets st) in
  let speedRates0 := kept (mSpeedRates st) in
  let beeline0 := kept (mBeelineSpeedPercentiles st) in
  let charProbabilities0 := kept (mCharProbabilities st) in
  let directions0 := kept (mDirections st) in
  let '(sampledInputSize, sampled) :=
    match xCoordinates, yCoordinates with
    | Some xs, Some ys =>
      updateTouchPoints proximityInfo maxPointToKeyLength inputProximities xs ys times
        pointerIds inputSize isGeometric pointerId pushTouchPointStartIndex sampled0
    | _, _ => (0, sampled0)
    end in
  let '(averageSpeed, speedRates, directions, beeline) :=
    if (0 <? sampledInputSize) && isGeometric then
      let '(averageSpeed, speedRates, directions) :=
        refreshSpeedRates inputSize xCoordinates yCoordinates times lastSavedInputSize
          sampledInputSize sampled speedRates0 directions0 in
      (averageSpeed, speedRates, directions,
       refreshBeelineSpeedRates (getMostCommonKeyWidth proximityInfo) averageSpeed
         inputSize xCoordinates yCoordinates times sampledInputSize
         (sampledXs sampled) (sampledYs sampled) (sampledIndice sampled) beeline0)
    else (mAverageSpeed st, speedRates0, directions0, beeline0) in
  let '(nearKeySets, distanceCache) :=
    if 0 <? sampledInputSize then
      initGeometricDistanceInfos proximityInfo sampledInputSize lastSavedInputSize
        (sampledXs sampled) (sampledYs sampled) nearKeySets0 distanceCache0
    else (nearKeySets0, distanceCache0) in
  let geometric := (0 <? sampledInputSize) && isGeometric in
  let charProbabilities :=
    if geometric then
      updateAlignPointProbabilities maxPointToKeyLength
        (getMostCommonKeyWidth proximityInfo) (getKeyCount proximityInfo)
        lastSavedInputSize sampledInputSize (sampledXs sampled) (sampledYs sampled)
        speedRates (sampledLengthCache sampled) distanceCache nearKeySets
        charProbabilities0
    else charProbabilities0 in
  let '(searchKeySets, searchKeyVectors) :=
    if geometric then
      updateSampledSearchKeySets proximityInfo sampledInputSize lastSavedInputSize
        (sampledLengthCache sampled) nearKeySets searchKeySets0
        (mSampledSearchKeyVectors st)
    else (searchKeySets0, mSampledSearchKeyVectors st) in
  let '(mostProbableStringProbability, mostProbableString) :=
    if geometric then
      getMostProbableStringOf proximityInfo sampledInputSize charProbabilities
    else (Float32.zero, mMostProbableString st) in
  let touchPositionCorrectionEnabled :=
    (0 <? sampledInputSize) && hasTouchPositionCorrectionData proximityInfo
    && bool_decide (is_Some xCoordinates) && bool_decide (is_Some yCoordinates) in
  let tap := negb isGeometric && (pointerId =? 0) in
  let primaryInputWord :=
    if tap then initPrimaryInputWord inputSize inputProximities (mPrimaryInputWord st)
    else mPrimaryInputWord st in
  let normalizedSquaredDistances :=
    if tap && touchPositionCorrectionEnabled then
      initNormalizedSquaredDistances proximityInfo inputSize xCoordinates yCoordinates
        inputProximities (sampledXs sampled) (sampledYs sampled)
        (mNormalizedSquaredDistances st)
    else mNormalizedSquaredDistances st in
  Some {|
    mProximityInfo := Some proximityInfo;
    mMaxPointToKeyLength := maxPointToKeyLength;
    mAverageSpeed := averageSpeed;
    mHasTouchPositionCorrectionData := hasTouchPositionCorrectionData proximityInfo;
    mMostCommonKeyWidthSquare := getMostCommonKeyWidthSquare proximityInfo;
    mKeyCount := getKeyCount proximityInfo;
    mCellHeight := getCellHeight proximityInfo;
    mCellWidth := getCellWidth proximityInfo;
    mGridHeight := getGridWidth proximityInfo;
    mGridWidth := getGridHeight proximityInfo;
    mIsContinuationPossible := isContinuationPossible;
    mSampledInputXs := sampledXs sampled;
    mSampledInputYs := sampledYs sampled;
    mSampledTimes := sampledTimes sampled;
    mSampledInputIndice := sampledIndice sampled;
    mSampledLengthCache := sampledLengthCache sampled;
    mBeelineSpeedPercentiles := beeline;
    mSampledDistanceCache_G := distanceCache;
    mSpeedRates := speedRates;
    mDirections := directions;
    mCharProbabilities := charProbabilities;
    mSampledNearKeySets := nearKeySets;
    mSampledSearchKeySets := searchKeySets;
    mSampledSearchKeyVectors := searchKeyVectors;
    mTouchPositionCorrectionEnabled := touchPositionCorrectionEnabled;
    mInputProximities := inputProximities;
    mNormalizedSquaredDistances := normalizedSquaredDistances;
    mSampledInputSize := sampledInputSize;
    mPrimaryInputWord := primaryInputWord;
    mMostProbableStringProbability := mostProbableStringProbability;
    mMostProbableString := mostProbableString
  |}.

(** [getPointToKeyLength] *)
Definition getPointToKeyLength (st : ProximityInfoState)
    (inputIndex codePoint : Z) (scale : float) : option float :=
  proximityInfo ← mProximityInfo st;
  let keyId := getKeyIndexOf proximityInfo codePoint in
  if negb (keyId =? NOT_AN_INDEX) then
    let index := Int32.add (Int32.mul inputIndex (getKeyCount proximityInfo)) keyId in
    d ← at_index (mSampledDistanceCache_G st) index;
    Some (min (Float32.mul d scale) (mMaxPointToKeyLength st))
  else if isSkippableCodePoint codePoint then Some Float32.zero
  else Some (Float32.of_int MAX_POINT_TO_KEY_LENGTH).

(** [getLineToKeyDistance] *)
Definition getLineToKeyDistance (st : ProximityInfoState)
    (from to keyId : Z) (extend : bool) : option float :=
  if (from <? 0) || (Int32.sub (mSampledInputSize st) 1 <? from) then Some Float32.zero
  else if (to <? 0) || (Int32.sub (mSampledInputSize st) 1 <? to) then Some Float32.zero
  else
    x0 ← at_index (mSampledInputXs st) from;
    y0 ← at_index (mSampledInputYs st) from;
    x1 ← at_index (mSampledInputXs st) to;
    y1 ← at_index (mSampledInputYs st) to;
    proximityInfo ← mProximityInfo st;
    let keyX := getKeyCenterXOfKeyIdG proximityInfo keyId in
    let keyY := getKeyCenterYOfKeyIdG proximityInfo keyId in
    Some (pointToLineSegSquaredDistanceFloat keyX keyY x0 y0 x1 y1 extend).

(** [getMostProbableString]: the returned probability and the contents of
    [codePointBuf] after the [memcpy] of the whole of [mMostProbableString]. *)
Definition getMostProbableString (st : ProximityInfoState) : float * list Z :=
  (mMostProbableStringProbability st, mMostProbableString st).

(** [getProbability] *)
Definition getProbability (st : ProximityInfoState) (index keyIndex : Z)
  : option float :=
  ASSERT ((0 <=? index) && (index <? mSampledInputSize st));;
  probabilities ← at_index (mCharProbabilities st) index;
  match probabilities !! keyIndex with
  | Some p => Some p
  | None => Some (Float32.of_int MAX_POINT_TO_KEY_LENGTH)
  end.

(** Modelled from the spec: the constructor is in the header, absent from
    the sources.  Spec 3 (lifecycle) and 8 ("N = 0: M = 0,
    MostProbableString empty, probability 0"): a state that no
    [initInputParams] has touched has no layout, no samples, zeroed
    arrays and counters. *)
Definition fresh : ProximityInfoState :=
  {| mProximityInfo := None;
     mMaxPointToKeyLength := Float32.zero;
     mAverageSpeed := Float32.zero;
     mHasTouchPositionCorrectionData := false;
     mMostCommonKeyWidthSquare := 0;
     mKeyCount := 0;
     mCellHeight := 0;
     mCellWidth := 0;
     mGridHeight := 0;
     mGridWidth := 0;
     mIsContinuationPossible := false;
     mSampledInputXs := [];
     mSampledInputYs := [];
     mSampledTimes := [];
     mSampledInputIndice := [];
     mSampledLengthCache := [];
     mBeelineSpeedPercentiles := [];
     mSampledDistanceCache_G := [];
     mSpeedRates := [];
     mDirections := [];
     mCharProbabilities := [];
     mSampledNearKeySets := [];
     mSampledSearchKeySets := [];
     mSampledSearchKeyVectors := [];
     mTouchPositionCorrectionEnabled := false;
     mInputProximities :=
       replicate (Z.to_nat (MAX_PROXIMITY_CHARS_SIZE * MAX_WORD_LENGTH)) 0;
     mNormalizedSquaredDistances :=
       replicate (Z.to_nat (MAX_PROXIMITY_CHARS_SIZE * MAX_WORD_LENGTH)) 0;
     mSampledInputSize := 0;
     mPrimaryInputWord := replicate (Z.to_nat MAX_WORD_LENGTH) 0;
     mMostProbableStringProbability := Float32.zero;
     mMostProbableString := replicate (Z.to_nat MAX_WORD_LENGTH) 0 |}.

End State.

(** ** Notions of the specification that the properties are stated with *)

(** The sampled arrays are parallel: one entry per sample in each. *)
Definition parallel (s : Sampled) : Prop :=
  length (sampledYs s) = length (sampledXs s)
  /\ length (sampledTimes s) = length (sampledXs s)
  /\ length (sampledLengthCache s) = length (sampledXs s)
  /\ length (sampledIndice s) = length (sampledXs s).

(** The first [k] entries of every sampled array. *)
Definition prefix_of_length (k : nat) (s : Sampled) : Sampled :=
  {| sampledXs := take k (sampledXs s);
     sampledYs := take k (sampledYs s);
     sampledTimes := take k (sampledTimes s);
     sampledLengthCache := take k (sampledLengthCache s);
     sampledIndice := take k (sampledIndice s) |}.

(** [s'] is [s] with entries appended, and nothing else changed. *)
Definition appended (s s' : Sampled) : Prop :=
  sampledXs s `prefix_of` sampledXs s'
  /\ sampledYs s `prefix_of` sampledYs s'
  /\ sampledTimes s `prefix_of` sampledTimes s'
  /\ sampledLengthCache s `prefix_of` sampledLengthCache s'
  /\ sampledIndice s `prefix_of` sampledIndice s'.

(** Entry [i] of a raw input array that may be absent. *)
Definition raw_at (a : option (list Z)) (i : Z) : option Z :=
  a ≫= fun l => at_index l i.

(** Spec 4.3: the raw input [(N', xs', ys', ts')] is a strict extension of
    [(N, xs, ys, ts)]: "same initial prefix of (x,y,t) triples, length
    strictly greater". *)
Definition strict_extension (N : Z) (xs ys ts : option (list Z))
    (N' : Z) (xs' ys' ts' : option (list Z)) : Prop :=
  N < N'
  /\ forall i, 0 <= i < N ->
       raw_at xs' i = raw_at xs i /\ raw_at ys' i = raw_at ys i
       /\ raw_at ts' i = raw_at ts i.

Section SpecNotions.
Context `{D : Defines} `{U : ProximityInfoStateUtils}.

(** Modelled from the spec: [updateTouchPoints] is absent from the
    sources.  Spec 3, invariant 6: in the sampled arrays "new data is
    appended only". *)
Definition appends_only : Prop :=
  forall proximityInfo maxPointToKeyLength inputProximities xs ys times pointerIds
         inputSize isGeometric pointerId pushTouchPointStartIndex s,
    appended s
      (updateTouchPoints proximityInfo maxPointToKeyLength inputProximities xs ys
         times pointerIds inputSize isGeometric pointerId pushTouchPointStartIndex
         s).2.

(** Modelled from the spec: [updateTouchPoints] is absent from the
    sources.  Spec 3 and 8: the sampled size [M] of a fresh run satisfies
    [M >= 0] and [M <= N]. *)
Definition sampled_size_bounded : Prop :=
  forall proximityInfo maxPointToKeyLength inputProximities xs ys times pointerIds
         inputSize isGeometric pointerId,
    0 <= inputSize ->
    0 <= (updateTouchPoints proximityInfo maxPointToKeyLength inputProximities xs ys
            times pointerIds inputSize isGeometric pointerId 0 no_samples).1
      <= inputSize.

(** Modelled from the spec: [checkAndReturnIsContinuationPossible] and
    [updateTouchPoints] are absent from the sources.  Spec 4.3:
    "checkContinuation returns true when the new stream is a strict
    extension of the previous one: [...] length strictly greater.
    Otherwise the resampler runs fresh."  Here the previous stream is the
    raw input of [inputSize] points that the resampler sampled from
    scratch, and the check is run on the arrays it produced. *)
Definition continuation_needs_longer_input : Prop :=
  forall proximityInfo maxPointToKeyLength inputProximities xs ys times pointerIds
         inputSize isGeometric pointerId inputSize' xs' ys' times',
    let previous :=
      updateTouchPoints proximityInfo maxPointToKeyLength inputProximities xs ys
        times pointerIds inputSize isGeometric pointerId 0 no_samples in
    checkAndReturnIsContinuationPossible inputSize' xs' ys' times' previous.1
      (sampledXs previous.2) (sampledYs previous.2) (sampledTimes previous.2)
      (sampledIndice previous.2) = true ->
    inputSize < inputSize'.

(** Spec 3 and 4.5: [Dist2[i][k]], entry [(i, k)] of the dense
    [M x keyCount] distance cache. *)
Definition Dist2 (st : ProximityInfoState) (keyCount i k : Z) : option float :=
  at_index (mSampledDistanceCache_G st) (i * keyCount + k).

(** The value that spec 4.8 states for [pointToKeyLength] on a code point
    with a key: [min(sqrt(Dist2[i][keyIdOf(cp)]) * scale, maxPointToKeyLength)]. *)
Definition pointToKeyLength_stated (dist2 scale maxPointToKeyLength : float) : float :=
  min (Float32.mul (Float32.sqrt dist2) scale) maxPointToKeyLength.

End SpecNotions.

(** ** Notions for the rounding of binary floating-point numbers *)

Definition b2z (b : bool) : Z := if b then 1 else 0.

(** The shift-right record [mrs] is the mantissa [M] shifted right by [k]
    bits: [M = m * 2^k + r * 2^(k-1) + rest], where [s] tells whether the
    rest is non-zero. *)
Definition shifted (M k : Z) (mrs : shr_record) : Prop :=
  0 <= k /\ 0 <= shr_m mrs
  /\ exists t, 0 <= t < 2 ^ k
       /\ 2 * M = 2 ^ (k + 1) * shr_m mrs + 2 ^ k * b2z (shr_r mrs) + t
       /\ (shr_s mrs = true <-> t <> 0).

(** Round to nearest, ties to even, of a shift-right record. *)
Definition rne (mrs : shr_record) : Z :=
  round_nearest_even (shr_m mrs) (loc_of_shr_record mrs).

(** The exponent at which the mantissa [M] with exponent [E] is rounded. *)
Definition round_exp (prec emax : Z) (M : positive) (E : Z) : Z :=
  fexp prec emax (Zpos (digits2_pos M) + E).

(** The float made of a rounded mantissa [q <= 2^prec] at exponent [e]. *)
Definition finalize (prec emax : Z) (s : bool) (q e : Z) : spec_float :=
  if q =? 0 then S754_zero s
  else if q <? 2 ^ prec then
    if e <=? emax - prec then S754_finite s (Z.to_pos q) e else S754_infinity s
  else
    if e + 1 <=? emax - prec then S754_finite s (Z.to_pos (2 ^ (prec - 1))) (e + 1)
    else S754_infinity s.

(** Order of the values [M1 * 2^E1] and [M2 * 2^E2]. *)
Definition val_le (M1 E1 M2 E2 : Z) : Prop :=
  M1 * 2 ^ (E1 - Z.min E1 E2) <= M2 * 2 ^ (E2 - Z.min E1 E2).

(** A float that is zero, positive or plus infinity. *)
Definition nonneg (x : spec_float) : Prop := SFleb (S754_zero false) x = true.

(** ** A small keyboard, for the examples

    Sample values for the constants, a three-key layout and plain
    implementations of the helpers (every raw point is a sample). *)
Module Sample.

Definition defines : Defines :=
  {| MAX_WORD_LENGTH := 48;
     MAX_PROXIMITY_CHARS_SIZE := 16;
     ADDITIONAL_PROXIMITY_CHAR_DELIMITER_CODE := 2;
     MAX_POINT_TO_KEY_LENGTH := 10000000;
     NOT_AN_INDEX := -1 |}.

Definition sqdist (x y x' y' : Z) : Z := (x - x') * (x - x') + (y - y') * (y - y').

(** Lower case of ASCII letters; U+00E1 folds to [a]. *)
Definition chars : CharUtils :=
  {| toBaseLowerCase := fun c =>
       if (65 <=? c) && (c <=? 90) then c + 32
       else if c =? 225 then 97 else c;
     isSkippableCodePoint := fun c => (c =? 39) || (c =? 45);
     pointToLineSegSquaredDistanceFloat := fun x y x1 y1 x2 y2 extend =>
       Float32.of_int (Z.min (sqdist x y x1 y1) (sqdist x y x2 y2)) |}.

(** The keys: code point and centre; the key id is the position. *)
Definition keys : list (Z * (Z * Z)) :=
  [(97, (100, 200)); (115, (180, 200)); (113, (100, 120))].

Fixpoint key_index (c : Z) (l : list (Z * (Z * Z))) (k : Z) : Z :=
  match l with
  | (c', _) :: l' => if c' =? c then k else key_index c l' (k + 1)
  | [] => -1
  end.

(** The proximity list of a typed code point: the code point, its
    neighbours, and for [a] an additional list after the delimiter. *)
Definition proximities_of (c : Z) : list Z :=
  if c =? 97 then [97; 115; 113; 2; 122]
  else if c =? 115 then [115; 97]
  else if c =? 113 then [113; 97]
  else [c].

Definition layout : ProximityInfo :=
  {| hasTouchPositionCorrectionData := false;
     getMostCommonKeyWidth := 80;
     getMostCommonKeyWidthSquare := 6400;
     getKeyCount := 3;
     getCellHeight := 80;
     getCellWidth := 80;
     getGridWidth := 4;
     getGridHeight := 3;
     initializeProximities := fun inputCodes xs ys inputSize inputProximities =>
       resize (length inputProximities) 0
         (mjoin ((fun c => resize 16 0 (proximities_of c))
                 <$> take (Z.to_nat inputSize) (default [] inputCodes)));
     getKeyIndexOf := fun c => key_index c keys 0;
     getKeyCenterXOfKeyIdG := fun k => default 0 (fst <$> (snd <$> at_index keys k));
     getKeyCenterYOfKeyIdG := fun k => default 0 (snd <$> (snd <$> at_index keys k));
     hasSpaceProximityAt := fun _ _ => false |}.

Definition one : float := Float32.of_int 1.

(** The key nearest to a point. *)
Definition nearest_key (x y : Z) : Z :=
  (foldr (fun '(k, (_, (kx, ky))) '(best, d) =>
            if sqdist x y kx ky <=? d then (k, sqdist x y kx ky) else (best, d))
     (0, sqdist x y 100 200) (zip (seqZ 0 3) keys)).1.

Definition utils : ProximityInfoStateUtils :=
  {| checkAndReturnIsContinuationPossible :=
       fun inputSize xs ys times sampledInputSize sampledXs sampledYs sampledTimes
           sampledIndice =>
         (sampledInputSize <? inputSize)
         && forallb (fun '(i, (x, (y, t))) =>
                       bool_decide (raw_at xs i = Some x)
                       && bool_decide (raw_at ys i = Some y)
                       && bool_decide (raw_at times i = Some t))
              (zip sampledIndice (zip sampledXs (zip sampledYs sampledTimes)));
     updateTouchPoints :=
       fun proximityInfo maxPointToKeyLength inputProximities xs ys times pointerIds
           inputSize isGeometric pointerId pushTouchPointStartIndex s =>
         let new := seqZ pushTouchPointStartIndex (inputSize - pushTouchPointStartIndex) in
         let s' :=
           {| sampledXs := sampledXs s ++ ((fun i => default 0 (at_index xs i)) <$> new);
              sampledYs := sampledYs s ++ ((fun i => default 0 (at_index ys i)) <$> new);
              sampledTimes := sampledTimes s ++ ((fun i => default 0 (raw_at times i)) <$> new);
              sampledLengthCache := sampledLengthCache s ++ (Float32.of_int <$> new);
              sampledIndice := sampledIndice s ++ new |} in
         (Z.of_nat (length (sampledXs s')), s');
     refreshSpeedRates :=
       fun inputSize xs ys times lastSavedInputSize sampledInputSize s speedRates
           directions =>
         (one, replicate (Z.to_nat sampledInputSize) one,
          replicate (Z.to_nat sampledInputSize) Float32.zero);
     refreshBeelineSpeedRates :=
       fun mostCommonKeyWidth averageSpeed inputSize xs ys times sampledInputSize
           sampledXs sampledYs sampledIndice beeline =>
         replicate (Z.to_nat sampledInputSize) 100;
     initGeometricDistanceInfos :=
       fun proximityInfo sampledInputSize lastSavedInputSize sampledXs sampledYs
           nearKeySets distanceCache =>
         ((fun _ => list_to_set (seqZ 0 3)) <$> sampledXs,
          mjoin ((fun '(x, y) =>
                    (fun '(_, (kx, ky)) => Float32.of_int (sqdist x y kx ky)) <$> keys)
                 <$> zip sampledXs sampledYs));
     updateAlignPointProbabilities :=
       fun maxPointToKeyLength mostCommonKeyWidth keyCount lastSavedInputSize
           sampledInputSize sampledXs sampledYs speedRates lengthCache distanceCache
           nearKeySets charProbabilities =>
         (fun '(x, y) => {[ nearest_key x y := one ]}) <$> zip sampledXs sampledYs;
     updateSampledSearchKeySets :=
       fun proximityInfo sampledInputSize lastSavedInputSize lengthCache nearKeySets
           searchKeySets searchKeyVectors =>
         (nearKeySets, (fun _ => seqZ 0 3) <$> nearKeySets);
     getMostProbableStringOf :=
       fun proximityInfo sampledInputSize charProbabilities =>
         (one,
          resize 48 0
            ((fun m : gmap Z float =>
                default 0 (fst <$> at_index keys
                                     (default 0 (fst <$> head (map_to_list m)))))
             <$> charProbabilities));
     initPrimaryInputWord :=
       fun inputSize inputProximities primaryInputWord =>
         resize (length primaryInputWord) 0
           ((fun i => default 0 (at_index inputProximities (i * 16)))
            <$> seqZ 0 inputSize);
     initNormalizedSquaredDistances :=
       fun proximityInfo inputSize xs ys inputProximities sampledXs sampledYs
           normalizedSquaredDistances => normalizedSquaredDistances |}.

(** The same helpers with a continuation check that takes the previous
    raw input to end at the raw point of the last sample: it accepts an
    input that is longer than that and agrees with the samples. *)
Definition utils_strict : ProximityInfoStateUtils :=
  {| checkAndReturnIsContinuationPossible :=
       fun inputSize xs ys times sampledInputSize sampledXs sampledYs sampledTimes
           sampledIndice =>
         (default 0 ((fun j => j + 1) <$> last sampledIndice) <? inputSize)
         && forallb (fun '(i, (x, (y, t))) =>
                       bool_decide (raw_at xs i = Some x)
                       && bool_decide (raw_at ys i = Some y)
                       && bool_decide (raw_at times i = Some t))
              (zip sampledIndice (zip sampledXs (zip sampledYs sampledTimes)));
     updateTouchPoints := @updateTouchPoints utils;
     refreshSpeedRates := @refreshSpeedRates utils;
     refreshBeelineSpeedRates := @refreshBeelineSpeedRates utils;
     initGeometricDistanceInfos := @initGeometricDistanceInfos utils;
     updateAlignPointProbabilities := @updateAlignPointProbabilities utils;
     updateSampledSearchKeySets := @updateSampledSearchKeySets utils;
     getMostProbableStringOf := @getMostProbableStringOf utils;
     initPrimaryInputWord := @initPrimaryInputWord utils;
     initNormalizedSquaredDistances := @initNormalizedSquaredDistances utils |}.

#[local] Existing Instances defines chars utils.

Definition maxLength : float := Float32.of_int 1000.

(** The state after a call, [fresh] if the call was rejected. *)
Definition after (r : option ProximityInfoState) : ProximityInfoState :=
  default fresh r.

(** Scenario 1 of spec 8: one tap near the key [a]. *)
Definition tap_a : ProximityInfoState :=
  after (initInputParams fresh 0 maxLength layout (Some [97]) 1
           (Some [102]) (Some [200]) (Some [0]) (Some [0]) false).

(** Scenario 5 of spec 8: a swipe of three points, the same swipe again,
    and the swipe with one more point. *)
Definition swipe3 : ProximityInfoState :=
  after (initInputParams fresh 0 maxLength layout None 3
           (Some [0; 50; 100]) (Some [0; 0; 0]) (Some [0; 30; 60])
           (Some [0; 0; 0]) true).

Definition swipe3_again : ProximityInfoState :=
  after (initInputParams swipe3 0 maxLength layout None 3
           (Some [0; 50; 100]) (Some [0; 0; 0]) (Some [0; 30; 60])
           (Some [0; 0; 0]) true).

Definition swipe4 : ProximityInfoState :=
  after (initInputParams swipe3 0 maxLength layout None 4
           (Some [0; 50; 100; 150]) (Some [0; 0; 0; 0]) (Some [0; 30; 60; 90])
           (Some [0; 0; 0; 0]) true).

(** One tap that types U+00E1 near the key [a]. *)
Definition tap_a_acute : ProximityInfoState :=
  after (initInputParams fresh 0 maxLength layout (Some [225]) 1
           (Some [102]) (Some [200]) (Some [0]) (Some [0]) false).

(** The tap on [a], then the same tap and a second one near [s]. *)
Definition tap_a_extended : ProximityInfoState :=
  after (initInputParams tap_a 0 maxLength layout (Some [97; 115]) 2
           (Some [102; 180]) (Some [200; 200]) (Some [0; 10]) (Some [0; 0]) false).

(** The tap on [a], then the swipe. *)
Definition tap_a_then_swipe3 : ProximityInfoState :=
  after (initInputParams tap_a 0 maxLength layout None 3
           (Some [0; 50; 100]) (Some [0; 0; 0]) (Some [0; 30; 60])
           (Some [0; 0; 0]) true).

(** The swipe, then the tap on [a]. *)
Definition swipe3_then_tap : ProximityInfoState :=
  after (initInputParams swipe3 0 maxLength layout (Some [97]) 1
           (Some [102]) (Some [200]) (Some [0]) (Some [0]) false).

(** The swipe, then a call without coordinates. *)
Definition swipe3_then_nothing : ProximityInfoState :=
  after (initInputParams swipe3 0 maxLength layout (Some [97]) 1
           None None None None false).

End Sample.

(** ** The other queries of the file *)

(** The literal [1.0f]. *)
Definition float_one : float := S754_finite false 8388608 (-23).

Section Queries.
Context `{D : Defines} `{CU : CharUtils} `{U : ProximityInfoStateUtils}.

(** The width of [std::bitset<MAX_KEY_COUNT_IN_A_KEYBOARD>], a macro of
    [defines.h]. *)
Variable MAX_KEY_COUNT_IN_A_KEYBOARD : Z.

(** [getPointToKeyLength_G] *)
Definition getPointToKeyLength_G (st : ProximityInfoState) (inputIndex codePoint : Z)
  : option float :=
  getPointToKeyLength st inputIndex codePoint float_one.

(** [std::bitset::test(pos)]: the bit, and an exception (here a failure)
    for a position outside the bitset. *)
Definition bitset_test (b : NearKeysVector) (pos : Z) : option bool :=
  if (0 <=? pos) && (pos <? MAX_KEY_COUNT_IN_A_KEYBOARD)
  then Some (bool_decide (pos ∈ b)) else None.

(** [isKeyInSerchKeysAfterIndex] *)
Definition isKeyInSerchKeysAfterIndex (st : ProximityInfoState) (index keyId : Z)
  : option bool :=
  ASSERT ((0 <=? keyId) && (0 <=? index) && (index <? mSampledInputSize st));;
  searchKeys ← at_index (mSampledSearchKeySets st) index;
  bitset_test searchKeys keyId.

(** Modelled from the spec: [getInputX] and [getInputY] are inline members
    of the header, absent from the sources.  Spec 3: "Sx[i], Sy[i] - sample
    position": the entries of the sampled coordinate vectors. *)
Definition getInputX (st : ProximityInfoState) (index : Z) : option Z :=
  at_index (mSampledInputXs st) index.

Definition getInputY (st : ProximityInfoState) (index : Z) : option Z :=
  at_index (mSampledInputYs st) index.

(** [hasSpaceProximity] *)
Definition hasSpaceProximity (st : ProximityInfoState) (index : Z) : option bool :=
  ASSERT ((0 <=? index) && (index <? mSampledInputSize st));;
  proximityInfo ← mProximityInfo st;
  x ← getInputX st index;
  y ← getInputY st index;
  Some (hasSpaceProximityAt proximityInfo x y).

End Queries.

(** What [initInputParams] does with the sampled data of the previous
    call: it continues from it, or clears it. *)
Definition continues (st st' : ProximityInfoState) : bool :=
  mIsContinuationPossible st'
  && (1 <? Z.of_nat (length (mSampledInputIndice st))).

(** ** Proof automation *)

(** Closes [Forall in_slot log] for a log made of indices known to be in
    the slot. *)
Ltac log_ok :=
  repeat (apply Forall_cons_2; [assumption|]);
  first [assumption | apply Forall_nil_2].

(** Names the results of the helper calls in [initInputParams]. *)
Ltac name_helper_results :=
  repeat match goal with
         | |- context [let '(_, _) := ?e in _] => destruct e as [? ?]
         end.

(** Case analysis on the integer comparisons of [SFcompare]. *)
Ltac cmp_cases :=
  repeat match goal with
         | |- context [Z.compare ?a ?b] => destruct (Z.compare_spec a b); subst
         | H : context [Z.compare ?a ?b] |- _ => destruct (Z.compare_spec a b); subst
         | |- context [Pos.compare_cont Eq ?a ?b] =>
           change (Pos.compare_cont Eq a b) with (Pos.compare a b);
           destruct (Pos.compare_spec a b); subst
         | H : context [Pos.compare_cont Eq ?a ?b] |- _ =>
           change (Pos.compare_cont Eq a b) with (Pos.compare a b) in H;
           destruct (Pos.compare_spec a b); subst
         end;
  simpl in *; try reflexivity; try discriminate; try lia.

(** * Properties *)

(** ** [getMatchedProximityId] against the steps of the specification *)

Section ClassificationFacts.
Context `{D : Defines} `{CU : CharUtils}.

Lemma read_Some (p : list Z) (j v : Z) (log : list Z) :
  0 <= j -> p !! Z.to_nat j = Some v -> read p j log = Some (v, j :: log).
Proof.
  intros Hj Hv. unfold read.
  destruct (Z.ltb_spec j 0) as [Hneg|_]; [lia|]. now rewrite Hv.
Qed.

Lemma slot_drop_cons (p : list Z) (j v : Z) :
  in_slot j -> p !! Z.to_nat j = Some v ->
  drop (Z.to_nat j) (take (Z.to_nat MAX_PROXIMITY_CHARS_SIZE) p)
  = v :: drop (Z.to_nat (j + 1)) (take (Z.to_nat MAX_PROXIMITY_CHARS_SIZE) p).
Proof.
  intros [Hj0 Hj] Hv.
  replace (Z.to_nat (j + 1)) with (S (Z.to_nat j)) by lia.
  apply drop_S. rewrite lookup_take_lt by lia. exact Hv.
Qed.

Lemma scan_result_cons_above (q j v : Z) (l : list Z) :
  (ADDITIONAL_PROXIMITY_CHAR_DELIMITER_CODE <? v) = true ->
  scan_result q j (v :: l)
  = if is_match q v then inl j else scan_result q (j + 1) l.
Proof.
  intros Hv. unfold scan_result. simpl. rewrite Hv. simpl.
  destruct (is_match q v).
  - f_equal. lia.
  - destruct (first_match q (above_delim l)); simpl; f_equal; lia.
Qed.

Lemma scan_result_cons_stop (q j v : Z) (l : list Z) :
  (ADDITIONAL_PROXIMITY_CHAR_DELIMITER_CODE <? v) = false ->
  scan_result q j (v :: l) = inr j.
Proof.
  intros Hv. unfold scan_result. simpl. rewrite Hv. simpl. f_equal. lia.
Qed.

(** The loop computes [scan_result] on the part of the slot that is left,
    and reads inside the slot only. *)
Lemma scan_loop_spec (p : list Z) (q : Z) :
  (Z.to_nat MAX_PROXIMITY_CHARS_SIZE <= length p)%nat ->
  forall (fuel : nat) (j : Z) (log : list Z),
    0 <= j <= MAX_PROXIMITY_CHARS_SIZE ->
    (Z.to_nat (MAX_PROXIMITY_CHARS_SIZE - j) < fuel)%nat ->
    Forall in_slot log ->
    exists log',
      scan_loop fuel p q (toBaseLowerCase q) j log
      = Some (scan_result q j
                (drop (Z.to_nat j) (take (Z.to_nat MAX_PROXIMITY_CHARS_SIZE) p)),
              log')
      /\ Forall in_slot log'.
Proof.
  intros Hlen fuel. induction fuel as [|fuel IH]; intros j log Hj Hfuel Hlog.
  - lia.
  - simpl. destruct (Z.ltb_spec j MAX_PROXIMITY_CHARS_SIZE) as [Hlt|Hge].
    + assert (Hin : in_slot j) by (unfold in_slot; lia).
      destruct (lookup_lt_is_Some_2 p (Z.to_nat j)) as [v Hv]; [lia|].
      rewrite (slot_drop_cons p j v Hin Hv).
      unfold mbind, Scan_bind. rewrite (read_Some p j v log) by (lia || done).
      destruct (ADDITIONAL_PROXIMITY_CHAR_DELIMITER_CODE <? v) eqn:Hv'.
      * rewrite scan_result_cons_above by done.
        rewrite (read_Some p j v) by (lia || done).
        unfold is_match.
        destruct (v =? toBaseLowerCase q) eqn:Hb.
        -- rewrite orb_true_r. unfold mret, Scan_ret.
           eexists. split; [reflexivity|]. log_ok.
        -- rewrite orb_false_r. rewrite (read_Some p j v) by (lia || done).
           unfold mret, Scan_ret.
           destruct (v =? q) eqn:Hq.
           ++ eexists. split; [reflexivity|]. log_ok.
           ++ apply IH; [lia|lia|]. log_ok.
      * rewrite scan_result_cons_stop by done. unfold mret, Scan_ret.
        eexists. split; [reflexivity|]. log_ok.
    + assert (j = MAX_PROXIMITY_CHARS_SIZE) as -> by lia.
      rewrite drop_ge by (rewrite length_take; lia).
      unfold mret, Scan_ret, scan_result. simpl.
      eexists. split; [do 3 f_equal; lia|done].
Qed.

Lemma above_delim_length (l : list Z) : (length (above_delim l) <= length l)%nat.
Proof.
  induction l as [|x l IH]; simpl; [lia|].
  destruct (ADDITIONAL_PROXIMITY_CHAR_DELIMITER_CODE <? x); simpl; lia.
Qed.

(** C1: in a state whose proximity array has its declared size, for an
    input index below [MAX_WORD_LENGTH] and any query code point,
    [getMatchedProximityId] returns the class that steps 1 to 7 of the
    specification give on the slot's list (EQUIVALENT on [C[0] = q] or
    [C[0] = q']; else UNRELATED without [checkProximity]; else NEAR on
    equal base forms or on a match at some [j >= 1] before the first entry
    that is not above DELIM, that [j] being written through a non-null
    [proximityIndex]; else ADDITIONAL on a match after a DELIM; else
    UNRELATED), and every array entry it reads has an index below
    [MAX_PROXIMITY_CHARS_SIZE] in the slot. *)
Theorem getMatchedProximityId_classifies
    (st : ProximityInfoState) (index c : Z) (checkProximityChars : bool)
    (proximityIndex : option Z) :
  0 < MAX_PROXIMITY_CHARS_SIZE ->
  length (mInputProximities st)
  = Z.to_nat (MAX_PROXIMITY_CHARS_SIZE * MAX_WORD_LENGTH) ->
  0 <= index < MAX_WORD_LENGTH ->
  exists log,
    getMatchedProximityId st index c checkProximityChars proximityIndex []
    = Some ((matchedProximity (slot st index) c checkProximityChars).1,
            written proximityIndex
              (matchedProximity (slot st index) c checkProximityChars).2,
            log)
    /\ Forall in_slot log.
Proof.
  intros Hmax Harr Hindex.
  unfold getMatchedProximityId, slot.
  set (p := getProximityCodePointsAt st index).
  set (N := Z.to_nat MAX_PROXIMITY_CHARS_SIZE).
  assert (Hlen : (N <= length p)%nat).
  { unfold p, getProximityCodePointsAt. rewrite length_drop, Harr. unfold N. nia. }
  destruct (lookup_lt_is_Some_2 p (Z.to_nat 0)) as [c0 Hc0]; [simpl; lia|].
  assert (H0 : in_slot 0) by (unfold in_slot; lia).
  pose proof (slot_drop_cons p 0 c0 H0 Hc0) as Hslot.
  change (Z.to_nat 0) with O in Hslot. rewrite drop_0 in Hslot. fold N in Hslot.
  rewrite Hslot. clear Hslot. change (Z.to_nat (0 + 1)) with 1%nat.
  unfold mbind at 1. unfold Scan_bind at 1.
  rewrite (read_Some p 0 c0 []) by (lia || done).
  unfold matchedProximity, is_match.
  rewrite (orb_comm (c0 =? c)).
  destruct ((c0 =? toBaseLowerCase c) || (c0 =? c)).
  { eexists. split; [reflexivity|]. log_ok. }
  destruct checkProximityChars;
    [change (negb true) with false|change (negb false) with true]; cbv iota;
    [|eexists; split; [reflexivity|]; log_ok].
  destruct (toBaseLowerCase c0 =? toBaseLowerCase c).
  { eexists. split; [reflexivity|]. log_ok. }
  set (rest := drop 1 (take N p)).
  assert (Hfuel : forall j, 0 <= j ->
            (Z.to_nat (MAX_PROXIMITY_CHARS_SIZE - j) < scan_fuel)%nat)
    by (intros; unfold scan_fuel; lia).
  destruct (scan_loop_spec p c Hlen scan_fuel 1 [0]) as (log1 & Hscan1 & Hlog1);
    [lia|apply Hfuel; lia|log_ok|].
  unfold mbind at 1. unfold Scan_bind at 1. rewrite Hscan1. clear Hscan1.
  change (drop (Z.to_nat 1) (take (Z.to_nat MAX_PROXIMITY_CHARS_SIZE) p)) with rest.
  unfold scan_result.
  destruct (first_match c (above_delim rest)) as [k|] eqn:Hfirst.
  { simpl. eexists. split; [reflexivity|]. log_ok. }
  set (j := 1 + Z.of_nat (length (above_delim rest))).
  assert (Hrest : length rest = (N - 1)%nat).
  { unfold rest. rewrite length_drop, length_take. lia. }
  pose proof (above_delim_length rest) as Hprimary.
  assert (Hdrop : drop (length (above_delim rest)) rest = drop (Z.to_nat j) (take N p)).
  { unfold rest at 2. rewrite drop_drop. f_equal. unfold j. lia. }
  rewrite Hdrop. clear Hdrop.
  unfold mbind at 1. unfold Scan_bind at 1.
  destruct (Z.ltb_spec j MAX_PROXIMITY_CHARS_SIZE) as [Hlt|Hge].
  - assert (Hin : in_slot j) by (unfold in_slot; lia).
    destruct (lookup_lt_is_Some_2 p (Z.to_nat j)) as [d Hd]; [lia|].
    unfold N. rewrite (slot_drop_cons p j d Hin Hd). fold N.
    unfold mbind at 1. unfold Scan_bind at 1.
    rewrite (read_Some p j d) by (lia || done).
    unfold mret at 1. unfold Scan_ret at 1.
    destruct (d =? ADDITIONAL_PROXIMITY_CHAR_DELIMITER_CODE).
    + destruct (scan_loop_spec p c Hlen scan_fuel (j + 1) (j :: log1))
        as (log2 & Hscan2 & Hlog2); [lia|apply Hfuel; lia|log_ok|].
      unfold mbind at 1. unfold Scan_bind at 1. rewrite Hscan2. clear Hscan2.
      fold N. unfold scan_result.
      destruct (first_match c (above_delim (drop (Z.to_nat (j + 1)) (take N p)))).
      * eexists. split; [reflexivity|exact Hlog2].
      * eexists. split; [reflexivity|]. log_ok.
    + eexists. split; [reflexivity|]. log_ok.
  - rewrite drop_ge by (rewrite length_take; lia).
    eexists. split; [reflexivity|]. log_ok.
Qed.

(** Without [checkProximity] the class is EQUIVALENT or UNRELATED. *)
Lemma matchedProximity_without_check (C : list Z) (q : Z) :
  (matchedProximity C q false).1 = EQUIVALENT_CHAR
  \/ (matchedProximity C q false).1 = UNRELATED_CHAR.
Proof.
  unfold matchedProximity. destruct C as [|c0 rest]; [right; reflexivity|].
  destruct (is_match q c0); [left|right]; reflexivity.
Qed.

Lemma first_match_lookup (q : Z) (l : list Z) (k : nat) :
  first_match q l = Some k ->
  exists x, l !! k = Some x /\ is_match q x = true.
Proof.
  revert k. induction l as [|y l IH]; intros k; simpl; [discriminate|].
  destruct (is_match q y) eqn:Hy.
  - intros [= <-]. exists y. split; [reflexivity|exact Hy].
  - destruct (first_match q l) as [k'|]; simpl; [|discriminate].
    intros [= <-]. exact (IH k' eq_refl).
Qed.

Lemma above_delim_lookup (l : list Z) (k : nat) (x : Z) :
  above_delim l !! k = Some x ->
  l !! k = Some x /\ ADDITIONAL_PROXIMITY_CHAR_DELIMITER_CODE < x.
Proof.
  revert k. induction l as [|y l IH]; intros k; simpl; [discriminate|].
  destruct (Z.ltb_spec ADDITIONAL_PROXIMITY_CHAR_DELIMITER_CODE y); [|discriminate].
  destruct k as [|k]; simpl.
  - intros [= <-]. split; [reflexivity|assumption].
  - apply IH.
Qed.

(** The index that the classification reports is the index in the slot's
    list of an entry above DELIM that is the query or its base form. *)
Lemma matchedProximity_index (C : list Z) (q : Z) (checkProximity : bool) (j : Z) :
  (matchedProximity C q checkProximity).2 = Some j ->
  1 <= j /\ exists x, C !! Z.to_nat j = Some x /\ is_match q x = true
                      /\ ADDITIONAL_PROXIMITY_CHAR_DELIMITER_CODE < x.
Proof.
  unfold matchedProximity. destruct C as [|c0 rest]; [discriminate|].
  destruct (is_match q c0); [discriminate|].
  destruct (negb checkProximity); [discriminate|].
  destruct (toBaseLowerCase c0 =? toBaseLowerCase q); [discriminate|].
  destruct (first_match q (above_delim rest)) as [k|] eqn:Hk.
  - intros [= <-]. split; [lia|].
    destruct (first_match_lookup _ _ _ Hk) as (x & Hx & Hm).
    destruct (above_delim_lookup _ _ _ Hx) as [Hl Hd].
    exists x. replace (Z.to_nat (1 + Z.of_nat k)) with (S k) by lia.
    repeat split; assumption.
  - destruct (drop (length (above_delim rest)) rest) as [|d rest'] eqn:Hdrop;
      [discriminate|].
    destruct (d =? ADDITIONAL_PROXIMITY_CHAR_DELIMITER_CODE); [|discriminate].
    destruct (first_match q (above_delim rest')) as [k|] eqn:Hk2; [|discriminate].
    intros [= <-]. split; [lia|].
    destruct (first_match_lookup _ _ _ Hk2) as (x & Hx & Hm).
    destruct (above_delim_lookup _ _ _ Hx) as [Hl Hd].
    exists x.
    replace (Z.to_nat (1 + Z.of_nat (length (above_delim rest)) + 1 + Z.of_nat k))
      with (S (length (above_delim rest) + S k)) by lia.
    repeat split; try assumption.
    change ((c0 :: rest) !! S (length (above_delim rest) + S k))
      with (rest !! (length (above_delim rest) + S k)%nat).
    rewrite <- lookup_drop, Hdrop. exact Hl.
Qed.

End ClassificationFacts.

(** ** Rounding to nearest even is monotone *)

Lemma digits2_size (m : positive) : digits2_pos m = Pos.size m.
Proof. induction m; simpl; congruence. Qed.

Lemma digits2_bounds (m : positive) :
  2 ^ (Zpos (digits2_pos m) - 1) <= Zpos m < 2 ^ Zpos (digits2_pos m).
Proof.
  rewrite digits2_size. split.
  - pose proof (Pos.size_le m) as H.
    assert (2 ^ Zpos (Pos.size m) <= 2 * Zpos m).
    { change (2 * Zpos m) with (Zpos m~0). rewrite <- Pos2Z.inj_pow. exact H. }
    replace (Zpos (Pos.size m)) with (Zpos (Pos.size m) - 1 + 1) in H0 by lia.
    rewrite Z.pow_add_r in H0 by lia. lia.
  - pose proof (Pos.size_gt m) as H.
    rewrite <- Pos2Z.inj_pow. exact H.
Qed.

Lemma shifted_0 (M : Z) : 0 <= M -> shifted M 0 (Build_shr_record M false false).
Proof.
  intros HM. split; [lia|]. split; [exact HM|].
  exists 0. simpl. split; [lia|]. split; [lia|]. split; [discriminate|lia].
Qed.

Lemma shifted_shr_1 (M k : Z) (mrs : shr_record) :
  shifted M k mrs -> shifted M (k + 1) (shr_1 mrs).
Proof.
  intros (Hk & Hm & t & Ht & HM & Hs).
  destruct mrs as [m r s]. simpl in *.
  assert (Hp : 2 ^ (k + 1) = 2 * 2 ^ k) by (rewrite Z.pow_add_r by lia; lia).
  assert (Hp2 : 2 ^ (k + 1 + 1) = 4 * 2 ^ k)
    by (rewrite !Z.pow_add_r by lia; lia).
  assert (Hpos : 0 < 2 ^ k) by (apply Z.pow_pos_nonneg; lia).
  assert (Hs' : (r || s) = true <-> 2 ^ k * b2z r + t <> 0).
  { destruct r; simpl; [split; [lia|reflexivity]|]. rewrite Hs. lia. }
  split; [lia|].
  destruct m as [|[p|p|]|p]; simpl; try lia;
    (split; [lia|]);
    exists (2 ^ k * b2z r + t);
    (split; [destruct r; simpl; lia|]);
    (split; [|exact Hs']);
    rewrite ?Hp, ?Hp2 in *; simpl b2z; lia.
Qed.

Lemma shifted_iter (p : positive) :
  forall M k mrs, shifted M k mrs -> shifted M (k + Zpos p) (SpecFloat.iter_pos shr_1 p mrs).
Proof.
  induction p as [p IH|p IH|]; intros M k mrs H; simpl.
  - replace (k + Zpos p~1) with (k + 1 + Zpos p + Zpos p) by lia.
    apply IH, IH, shifted_shr_1, H.
  - replace (k + Zpos p~0) with (k + Zpos p + Zpos p) by lia.
    apply IH, IH, H.
  - apply shifted_shr_1, H.
Qed.

Lemma rne_cases (mrs : shr_record) :
  rne mrs = shr_m mrs + b2z (shr_r mrs && (shr_s mrs || Z.odd (shr_m mrs))).
Proof.
  destruct mrs as [m [|] [|]]; unfold rne; simpl; rewrite <- ?Z.negb_even;
    destruct (Z.even m); simpl; lia.
Qed.

Lemma rne_bounds (mrs : shr_record) : shr_m mrs <= rne mrs <= shr_m mrs + 1.
Proof.
  rewrite rne_cases.
  destruct (shr_r mrs && (shr_s mrs || Z.odd (shr_m mrs))); simpl; lia.
Qed.

(** Rounding to nearest even is monotone: of two mantissas brought to the
    same exponent, the smaller rounds to the smaller integer. *)
Lemma rne_monotone (M1 k1 M2 k2 : Z) (mrs1 mrs2 : shr_record) :
  shifted M1 k1 mrs1 -> shifted M2 k2 mrs2 ->
  M1 * 2 ^ k2 <= M2 * 2 ^ k1 ->
  rne mrs1 <= rne mrs2.
Proof.
  intros (Hk1 & Hm1 & t1 & Ht1 & HM1 & Hs1) (Hk2 & Hm2 & t2 & Ht2 & HM2 & Hs2) Hle.
  rewrite !rne_cases.
  destruct mrs1 as [m1 r1 s1], mrs2 as [m2 r2 s2]. cbn [shr_m shr_r shr_s] in *.
  assert (Hp1 : 0 < 2 ^ k1) by (apply Z.pow_pos_nonneg; lia).
  assert (Hp2 : 0 < 2 ^ k2) by (apply Z.pow_pos_nonneg; lia).
  rewrite Z.pow_add_r in HM1, HM2 by lia. change (2 ^ 1) with 2 in *.
  set (P := 2 ^ k1 * 2 ^ k2).
  assert (HP : 0 < P) by (unfold P; lia).
  assert (H1 : 2 * (M1 * 2 ^ k2) = P * (2 * m1 + b2z r1) + t1 * 2 ^ k2).
  { unfold P. replace (2 * (M1 * 2 ^ k2)) with (2 * M1 * 2 ^ k2) by ring.
    rewrite HM1. ring. }
  assert (H2 : 2 * (M2 * 2 ^ k1) = P * (2 * m2 + b2z r2) + t2 * 2 ^ k1).
  { unfold P. replace (2 * (M2 * 2 ^ k1)) with (2 * M2 * 2 ^ k1) by ring.
    rewrite HM2. ring. }
  assert (Hf1 : 0 <= t1 * 2 ^ k2 < P).
  { unfold P. split; [apply Z.mul_nonneg_nonneg; lia|].
    apply Z.mul_lt_mono_pos_r; lia. }
  assert (Hf2 : 0 <= t2 * 2 ^ k1 < P).
  { unfold P. split; [apply Z.mul_nonneg_nonneg; lia|].
    rewrite (Z.mul_comm (2 ^ k1)). apply Z.mul_lt_mono_pos_r; lia. }
  clearbody P. clear HM1 HM2.
  set (f1 := t1 * 2 ^ k2) in *. set (f2 := t2 * 2 ^ k1) in *.
  set (a1 := 2 * m1 + b2z r1) in *. set (a2 := 2 * m2 + b2z r2) in *.
  assert (Ha : a1 <= a2) by nia.
  assert (Hs : a1 = a2 -> t1 <> 0 -> t2 <> 0).
  { intros Heq Ht. assert (f1 <= f2) by nia.
    assert (0 < f1) by (unfold f1; apply Z.mul_pos_pos; lia).
    intros ->. unfold f2 in *. lia. }
  unfold a1, a2 in *. clear H1 H2 Hf1 Hf2 f1 f2 a1 a2.
  destruct r1, r2; simpl b2z in *; simpl andb;
    try (destruct (s1 || Z.odd m1); simpl; lia);
    try (destruct (s2 || Z.odd m2); simpl; lia).
  assert (m1 < m2 \/ m1 = m2) as [Hlt|Heq] by lia; [|subst m1].
  - destruct (s1 || Z.odd m1), (s2 || Z.odd m2); simpl; lia.
  - destruct (Z.odd m2); rewrite ?orb_true_r, ?orb_false_r; simpl; [lia|].
    destruct s1; simpl; [|destruct s2; simpl; lia].
    assert (t2 <> 0) by (apply Hs; [lia|apply Hs1; reflexivity]).
    destruct s2; simpl; [lia|]. exfalso. destruct Hs2 as [_ Hs2]. 
    specialize (Hs2 H). discriminate.
Qed.

Lemma SFleb_refl (a : spec_float) : Float32.is_nan a = false -> SFleb a a = true.
Proof.
  destruct a as [[|]|[|]| |[|] m e]; simpl; intros H; try reflexivity; try discriminate;
    unfold SFleb, SFcompare; cmp_cases.
Qed.

Lemma SFltb_leb (a c : spec_float) : SFltb a c = true -> SFleb a c = true.
Proof.
  unfold SFltb, SFleb. destruct (SFcompare a c) as [[| |]|]; try discriminate; reflexivity.
Qed.

Lemma SFleb_ltb_trans (a b c : spec_float) :
  SFleb a b = true -> SFltb b c = true -> SFltb a c = true.
Proof.
  unfold SFleb, SFltb, SFcompare.
  destruct a as [[|]|[|]| |[|] ma ea], b as [[|]|[|]| |[|] mb eb],
           c as [[|]|[|]| |[|] mc ec];
    try (intros; discriminate); try (intros; reflexivity);
    intros H1 H2; cmp_cases.
Qed.

Lemma SFltb_false_leb (a c : spec_float) :
  Float32.is_nan a = false -> Float32.is_nan c = false -> SFltb a c = false -> SFleb c a = true.
Proof.
  unfold SFleb, SFltb, SFcompare.
  destruct a as [[|]|[|]| |[|] ma ea], c as [[|]|[|]| |[|] mc ec];
    try (intros; discriminate); try (intros; reflexivity);
    intros _ _ H; cmp_cases.
Qed.

Lemma SFleb_not_ltb (a b : spec_float) : SFleb a b = true -> SFltb b a = false.
Proof.
  unfold SFleb, SFltb, SFcompare.
  destruct a as [[|]|[|]| |[|] ma ea], b as [[|]|[|]| |[|] mb eb];
    try (intros; discriminate); try (intros; reflexivity);
    intros H; cmp_cases.
Qed.

Lemma min_nan_r (a : spec_float) : min a S754_nan = S754_nan.
Proof. unfold min, Float32.ltb, SFltb. destruct a as [?|[|]| |? ? ?]; reflexivity. Qed.

Lemma min_monotone (a b c : spec_float) :
  Float32.is_nan c = false -> SFleb a b = true ->
  SFleb (min a c) (min b c) = true.
Proof.
  intros Hc Hab. unfold min, Float32.ltb.
  destruct (SFltb a c) eqn:Hac, (SFltb b c) eqn:Hbc.
  - exact Hab.
  - apply SFltb_leb, Hac.
  - rewrite (SFleb_ltb_trans a b c Hab Hbc) in Hac. discriminate.
  - apply SFleb_refl, Hc.
Qed.

Lemma shr_fexp_nonneg (prec emax m e : Z) :
  0 <= m -> 0 <= shr_m (shr_fexp prec emax m e loc_Exact).1.
Proof.
  intros Hm. unfold shr_fexp, shr. cbn [shr_record_of_loc].
  destruct (fexp prec emax (Zdigits2 m + e) - e) as [|p|p]; cbn [fst shr_m];
    try exact Hm.
  pose proof (shifted_iter p m 0 _ (shifted_0 m Hm)) as (_ & H & _). exact H.
Qed.

(** Rounding a positive mantissa never gives a NaN. *)
Lemma binary_round_aux_not_nan (prec emax : Z) (s : bool) (M : positive) (E : Z) :
  Float32.is_nan (binary_round_aux prec emax s (Zpos M) E loc_Exact) = false.
Proof.
  unfold binary_round_aux.
  pose proof (shr_fexp_nonneg prec emax (Zpos M) E ltac:(lia)) as H1.
  destruct (shr_fexp prec emax (Zpos M) E loc_Exact) as [mrs' e'].
  cbn [fst] in H1. fold (rne mrs').
  pose proof (rne_bounds mrs') as Hq.
  pose proof (shr_fexp_nonneg prec emax (rne mrs') e' ltac:(lia)) as H2.
  destruct (shr_fexp prec emax (rne mrs') e' loc_Exact) as [mrs'' e''].
  cbn [fst] in H2.
  destruct (shr_m mrs'') as [|m|m]; [reflexivity| |lia].
  destruct (e'' <=? emax - prec); reflexivity.
Qed.

Lemma of_int_not_nan (z : Z) : Float32.is_nan (Float32.of_int z) = false.
Proof.
  unfold Float32.of_int, binary_normalize, binary_round.
  destruct z as [|m|m]; [reflexivity| |];
    destruct (shl_align _ _ _) as [mz ez]; apply binary_round_aux_not_nan.
Qed.

Section Rounding.
Variables prec emax : Z.
Hypothesis Hprec : 0 < prec.
Hypothesis Hemax : prec < emax.

Lemma round_exp_ge_emin M E : emin prec emax <= round_exp prec emax M E.
Proof. unfold round_exp, SpecFloat.fexp. lia. Qed.

Lemma shr_fexp_exact (M : positive) (E : Z) :
  E <= round_exp prec emax M E ->
  exists mrs,
    shr_fexp prec emax (Zpos M) E loc_Exact = (mrs, round_exp prec emax M E)
    /\ shifted (Zpos M) (round_exp prec emax M E - E) mrs.
Proof.
  intros HE. unfold shr_fexp, shr. simpl Zdigits2. fold (round_exp prec emax M E).
  simpl shr_record_of_loc.
  destruct (round_exp prec emax M E - E) as [|p|p] eqn:Hn.
  - eexists. split; [f_equal; lia|]. apply shifted_0. lia.
  - eexists. split; [f_equal; lia|].
    change (Zpos p) with (0 + Zpos p). apply shifted_iter, shifted_0. lia.
  - lia.
Qed.

Lemma shifted_mantissa_lt (M : positive) (k : Z) (mrs : shr_record) :
  shifted (Zpos M) k mrs -> Zpos (digits2_pos M) <= k + prec ->
  shr_m mrs < 2 ^ prec.
Proof.
  intros (Hk & Hm & t & Ht & HM & _) Hd.
  pose proof (digits2_bounds M) as [_ Hhi].
  assert (2 ^ Zpos (digits2_pos M) <= 2 ^ (k + prec))
    by (apply Z.pow_le_mono_r; lia).
  rewrite Z.pow_add_r in H, HM by lia. change (2 ^ 1) with 2 in HM.
  assert (0 < 2 ^ k) by (apply Z.pow_pos_nonneg; lia).
  assert (0 <= b2z (shr_r mrs)) by (destruct (shr_r mrs); simpl; lia).
  nia.
Qed.

Lemma shifted_mantissa_ge (M : positive) (k : Z) (mrs : shr_record) :
  shifted (Zpos M) k mrs -> Zpos (digits2_pos M) = k + prec ->
  2 ^ (prec - 1) <= shr_m mrs.
Proof.
  intros (Hk & Hm & t & Ht & HM & _) Hd.
  pose proof (digits2_bounds M) as [Hlo _]. rewrite Hd in Hlo.
  replace (k + prec - 1) with (k + (prec - 1)) in Hlo by lia.
  rewrite Z.pow_add_r in Hlo, HM by lia. change (2 ^ 1) with 2 in HM.
  assert (0 < 2 ^ k) by (apply Z.pow_pos_nonneg; lia).
  assert (b2z (shr_r mrs) <= 1) by (destruct (shr_r mrs); simpl; lia).
  assert (0 < 2 ^ (prec - 1)) by (apply Z.pow_pos_nonneg; lia).
  nia.
Qed.

Lemma digits2_le_prec (q : Z) :
  0 < q < 2 ^ prec -> Zpos (digits2_pos (Z.to_pos q)) <= prec.
Proof.
  intros Hq. pose proof (digits2_bounds (Z.to_pos q)) as [Hlo _].
  rewrite Z2Pos.id in Hlo by lia.
  destruct (Z_le_gt_dec (Zpos (digits2_pos (Z.to_pos q))) prec) as [|Hgt]; [assumption|].
  assert (2 ^ prec <= 2 ^ (Zpos (digits2_pos (Z.to_pos q)) - 1))
    by (apply Z.pow_le_mono_r; lia).
  lia.
Qed.

Lemma digits2_pow2 : Zpos (digits2_pos (Z.to_pos (2 ^ prec))) = prec + 1.
Proof.
  assert (0 < 2 ^ prec) by (apply Z.pow_pos_nonneg; lia).
  pose proof (digits2_bounds (Z.to_pos (2 ^ prec))) as [Hlo Hhi].
  rewrite Z2Pos.id in Hlo, Hhi by lia.
  set (d := Zpos (digits2_pos (Z.to_pos (2 ^ prec)))) in *.
  assert (d - 1 <= prec) by (apply (Z.pow_le_mono_r_iff 2); lia).
  assert (prec < d) by (apply (Z.pow_lt_mono_r_iff 2); lia).
  lia.
Qed.

(** The result of rounding a positive mantissa that has at least the
    precision its exponent calls for. *)
Lemma binary_round_aux_exact (s : bool) (M : positive) (E : Z) :
  E <= round_exp prec emax M E ->
  exists mrs,
    shifted (Zpos M) (round_exp prec emax M E - E) mrs
    /\ binary_round_aux prec emax s (Zpos M) E loc_Exact
       = finalize prec emax s (rne mrs) (round_exp prec emax M E).
Proof.
  intros HE. destruct (shr_fexp_exact M E HE) as (mrs & Hshr & Hmrs).
  exists mrs. split; [exact Hmrs|].
  unfold binary_round_aux. rewrite Hshr. fold (rne mrs).
  pose proof (round_exp_ge_emin M E) as Hemin.
  set (e := round_exp prec emax M E) in *.
  assert (Hlt : shr_m mrs < 2 ^ prec).
  { apply (shifted_mantissa_lt M (e - E)); [exact Hmrs|].
    unfold e, round_exp, SpecFloat.fexp. lia. }
  pose proof (rne_bounds mrs) as Hq.
  destruct Hmrs as (_ & Hm & _).
  set (q := rne mrs) in *.
  assert (Hpow : 2 ^ prec = 2 * 2 ^ (prec - 1)).
  { replace prec with (1 + (prec - 1)) at 1 by lia.
    rewrite Z.pow_add_r by lia. reflexivity. }
  assert (Hpos : 0 < 2 ^ (prec - 1)) by (apply Z.pow_pos_nonneg; lia).
  unfold finalize, shr_fexp, shr.
  destruct (Z.eqb_spec q 0) as [->|Hq0].
  - simpl Zdigits2. simpl shr_record_of_loc.
    destruct (SpecFloat.fexp prec emax (0 + e) - e) eqn:Hn;
      [reflexivity| |reflexivity].
    unfold SpecFloat.fexp in Hn. lia.
  - destruct (Z.ltb_spec q (2 ^ prec)) as [Hq1|Hq1].
    + destruct q as [|q'|q'] eqn:Eq; try lia.
      simpl Zdigits2. simpl shr_record_of_loc.
      pose proof (digits2_le_prec (Zpos q') ltac:(lia)) as Hd. simpl in Hd.
      destruct (SpecFloat.fexp prec emax (Zpos (digits2_pos q') + e) - e) eqn:Hn;
        [reflexivity| |reflexivity].
      unfold SpecFloat.fexp in Hn. lia.
    + assert (q = 2 ^ prec) as Hq2 by lia.
      destruct q as [|q'|q'] eqn:Eq; try lia.
      simpl Zdigits2. simpl shr_record_of_loc.
      pose proof digits2_pow2 as Hd. rewrite <- Hq2 in Hd. simpl in Hd.
      assert (Hn : SpecFloat.fexp prec emax (Zpos (digits2_pos q') + e) - e = 1)
        by (unfold SpecFloat.fexp; lia).
      rewrite Hn. cbn [SpecFloat.iter_pos fst snd].
      pose proof (shifted_shr_1 (Zpos q') 0 (Build_shr_record (Zpos q') false false)
                    (shifted_0 (Zpos q') ltac:(lia))) as (_ & Hm' & t & Ht & HM & _).
      set (m' := shr_m (shr_1 (Build_shr_record (Zpos q') false false))) in *.
      set (r' := shr_r (shr_1 (Build_shr_record (Zpos q') false false))) in *.
      change (2 ^ (0 + 1 + 1)) with 4 in HM. change (2 ^ (0 + 1)) with 2 in *.
      assert (b2z r' = 0 \/ b2z r' = 1) by (destruct r'; simpl; lia).
      assert (Hm2 : m' = 2 ^ (prec - 1)) by lia.
      rewrite Hm2.
      destruct (2 ^ (prec - 1)) as [|h|h] eqn:Eh; try lia.
      reflexivity.
Qed.

Lemma val_le_digits (M1 M2 : positive) (E1 E2 : Z) :
  val_le (Zpos M1) E1 (Zpos M2) E2 ->
  Zpos (digits2_pos M1) + E1 <= Zpos (digits2_pos M2) + E2.
Proof.
  unfold val_le. intros Hle.
  pose proof (digits2_bounds M1) as [Hlo _].
  pose proof (digits2_bounds M2) as [_ Hhi].
  set (d1 := Zpos (digits2_pos M1)) in *. set (d2 := Zpos (digits2_pos M2)) in *.
  set (a := E1 - Z.min E1 E2) in *. set (b := E2 - Z.min E1 E2) in *.
  assert (Ha : 0 <= a) by (unfold a; lia).
  assert (Hb : 0 <= b) by (unfold b; lia).
  assert (Hd1 : 0 < d1) by (unfold d1; lia).
  assert (Hd2 : 0 < d2) by (unfold d2; lia).
  assert (H1 : 2 ^ (d1 - 1 + a) <= Zpos M1 * 2 ^ a).
  { rewrite Z.pow_add_r by lia. apply Z.mul_le_mono_nonneg_r; [|exact Hlo].
    apply Z.pow_nonneg. lia. }
  assert (H2 : Zpos M2 * 2 ^ b < 2 ^ (d2 + b)).
  { rewrite Z.pow_add_r by lia. apply Z.mul_lt_mono_pos_r; [|exact Hhi].
    apply Z.pow_pos_nonneg; lia. }
  assert (d1 - 1 + a < d2 + b) by (apply (Z.pow_lt_mono_r_iff 2); lia).
  unfold a, b in *. lia.
Qed.

Lemma val_le_round_exp (M1 M2 : positive) (E1 E2 : Z) :
  val_le (Zpos M1) E1 (Zpos M2) E2 -> round_exp prec emax M1 E1 <= round_exp prec emax M2 E2.
Proof.
  intros H. apply val_le_digits in H. unfold round_exp, SpecFloat.fexp. lia.
Qed.

Lemma val_le_aligned (M1 M2 E1 E2 e : Z) :
  E1 <= e -> E2 <= e -> val_le M1 E1 M2 E2 ->
  M1 * 2 ^ (e - E2) <= M2 * 2 ^ (e - E1).
Proof.
  unfold val_le. intros H1 H2 Hle.
  set (a := E1 - Z.min E1 E2) in *. set (b := E2 - Z.min E1 E2) in *.
  set (c := e - Z.max E1 E2).
  assert (Ha : 0 <= a) by (unfold a; lia).
  assert (Hb : 0 <= b) by (unfold b; lia).
  assert (Hc : 0 <= c) by (unfold c; lia).
  replace (e - E2) with (a + c) by (unfold a, c; lia).
  replace (e - E1) with (b + c) by (unfold b, c; lia).
  rewrite !Z.pow_add_r, !Z.mul_assoc by lia.
  apply Z.mul_le_mono_nonneg_r; [apply Z.pow_nonneg; lia|exact Hle].
Qed.

Lemma SFleb_finite (m1 m2 : positive) (e1 e2 : Z) :
  e1 < e2 \/ (e1 = e2 /\ (m1 <= m2)%positive) ->
  SFleb (S754_finite false m1 e1) (S754_finite false m2 e2) = true.
Proof.
  unfold SFleb, SFcompare. intros [Hlt|[-> Hle]].
  - apply Z.compare_lt_iff in Hlt. rewrite Hlt. reflexivity.
  - rewrite Z.compare_refl. fold (Pos.compare m1 m2).
    destruct (Pos.compare_spec m1 m2); try reflexivity. lia.
Qed.

(** Two rounded mantissas at the same exponent. *)
Lemma finalize_le_same (q1 q2 e : Z) :
  0 <= q1 <= q2 -> q2 <= 2 ^ prec ->
  SFleb (finalize prec emax false q1 e) (finalize prec emax false q2 e) = true.
Proof.
  intros Hq1 Hq2. unfold finalize.
  assert (Hpos : 0 < 2 ^ (prec - 1)) by (apply Z.pow_pos_nonneg; lia).
  destruct (Z.eqb_spec q1 0) as [->|H1].
  - destruct (Z.eqb_spec q2 0); [reflexivity|].
    destruct (q2 <? 2 ^ prec);
      [destruct (e <=? emax - prec)|destruct (e + 1 <=? emax - prec)]; reflexivity.
  - destruct (Z.eqb_spec q2 0) as [->|H2]; [lia|].
    destruct (Z.ltb_spec q1 (2 ^ prec)) as [L1|L1],
             (Z.ltb_spec q2 (2 ^ prec)) as [L2|L2]; try lia.
    + destruct (Z.leb_spec e (emax - prec)); [|reflexivity].
      apply SFleb_finite. right. split; [reflexivity|]. lia.
    + destruct (Z.leb_spec e (emax - prec)), (Z.leb_spec (e + 1) (emax - prec));
        try reflexivity; try lia.
      apply SFleb_finite. left. lia.
    + destruct (Z.leb_spec (e + 1) (emax - prec)); [|reflexivity].
      apply SFleb_finite. right. split; [reflexivity|]. lia.
Qed.

(** Two rounded mantissas, the second normal and at a larger exponent. *)
Lemma finalize_le_next (q1 q2 e1 e2 : Z) :
  0 <= q1 <= 2 ^ prec -> 2 ^ (prec - 1) <= q2 <= 2 ^ prec -> e1 < e2 ->
  SFleb (finalize prec emax false q1 e1) (finalize prec emax false q2 e2) = true.
Proof.
  intros Hq1 Hq2 He. unfold finalize.
  assert (Hpos : 0 < 2 ^ (prec - 1)) by (apply Z.pow_pos_nonneg; lia).
  destruct (Z.eqb_spec q2 0) as [->|H2]; [lia|].
  destruct (Z.eqb_spec q1 0) as [->|H1].
  - destruct (q2 <? 2 ^ prec);
      [destruct (e2 <=? emax - prec)|destruct (e2 + 1 <=? emax - prec)]; reflexivity.
  - destruct (Z.ltb_spec q1 (2 ^ prec)) as [L1|L1],
             (Z.ltb_spec q2 (2 ^ prec)) as [L2|L2].
    + destruct (Z.leb_spec e1 (emax - prec)), (Z.leb_spec e2 (emax - prec));
        try reflexivity; try lia.
      apply SFleb_finite. left. lia.
    + destruct (Z.leb_spec e1 (emax - prec)), (Z.leb_spec (e2 + 1) (emax - prec));
        try reflexivity; try lia.
      apply SFleb_finite. left. lia.
    + destruct (Z.leb_spec (e1 + 1) (emax - prec)), (Z.leb_spec e2 (emax - prec));
        try reflexivity; try lia.
      apply SFleb_finite.
      destruct (Z.eq_dec (e1 + 1) e2) as [<-|]; [right|left; lia].
      split; [reflexivity|]. lia.
    + destruct (Z.leb_spec (e1 + 1) (emax - prec)),
               (Z.leb_spec (e2 + 1) (emax - prec));
        try reflexivity; try lia.
      apply SFleb_finite. left. lia.
Qed.

(** Rounding is monotone on positive values. *)
Lemma binary_round_aux_monotone (M1 M2 : positive) (E1 E2 : Z) :
  E1 <= round_exp prec emax M1 E1 -> E2 <= round_exp prec emax M2 E2 ->
  val_le (Zpos M1) E1 (Zpos M2) E2 ->
  SFleb (binary_round_aux prec emax false (Zpos M1) E1 loc_Exact)
        (binary_round_aux prec emax false (Zpos M2) E2 loc_Exact) = true.
Proof.
  intros H1 H2 Hle.
  destruct (binary_round_aux_exact false M1 E1 H1) as (mrs1 & Hs1 & ->).
  destruct (binary_round_aux_exact false M2 E2 H2) as (mrs2 & Hs2 & ->).
  pose proof (val_le_round_exp _ _ _ _ Hle) as He.
  pose proof (rne_bounds mrs1) as Hb1. pose proof (rne_bounds mrs2) as Hb2.
  assert (Hlt1 : shr_m mrs1 < 2 ^ prec).
  { apply (shifted_mantissa_lt M1 (round_exp prec emax M1 E1 - E1)); [exact Hs1|].
    unfold round_exp, SpecFloat.fexp. lia. }
  assert (Hlt2 : shr_m mrs2 < 2 ^ prec).
  { apply (shifted_mantissa_lt M2 (round_exp prec emax M2 E2 - E2)); [exact Hs2|].
    unfold round_exp, SpecFloat.fexp. lia. }
  assert (Hm1 : 0 <= shr_m mrs1) by (destruct Hs1 as (_ & ? & _); assumption).
  destruct (Z.eq_dec (round_exp prec emax M1 E1) (round_exp prec emax M2 E2)) as [Heq|Hne].
  - rewrite Heq in *. apply finalize_le_same; [|lia].
    split; [lia|].
    apply (rne_monotone (Zpos M1) (round_exp prec emax M2 E2 - E1)
                        (Zpos M2) (round_exp prec emax M2 E2 - E2)); try assumption.
    apply val_le_aligned; assumption.
  - apply finalize_le_next; [lia| |lia].
    split; [|lia].
    pose proof (round_exp_ge_emin M1 E1) as Hemin.
    assert (2 ^ (prec - 1) <= shr_m mrs2); [|lia].
    apply (shifted_mantissa_ge M2 (round_exp prec emax M2 E2 - E2)); [exact Hs2|].
    unfold round_exp, SpecFloat.fexp in *. lia.
Qed.


Lemma nonneg_zero_le (z : bool) (x : spec_float) :
  nonneg x -> SFleb (S754_zero z) x = true.
Proof. unfold nonneg. destruct x as [?|[|]| |[|] ? ?]; trivial. Qed.

Lemma emin_nonpos : emin prec emax <= 0.
Proof. unfold SpecFloat.emin. lia. Qed.

Lemma bounded_canonical (m : positive) (e : Z) :
  bounded prec emax m e = true -> round_exp prec emax m e = e.
Proof.
  unfold bounded, canonical_mantissa. intros H.
  apply andb_true_iff in H as [H _]. apply Z.eqb_eq in H. exact H.
Qed.

Lemma digits2_mul_ge (a b : positive) :
  Zpos (digits2_pos a) <= Zpos (digits2_pos (a * b)).
Proof.
  pose proof (digits2_bounds a) as [Hlo _].
  pose proof (digits2_bounds (a * b)) as [_ Hhi].
  assert (Zpos a <= Zpos (a * b)) by nia.
  assert (Zpos (digits2_pos a) - 1 < Zpos (digits2_pos (a * b)))
    by (apply (Z.pow_lt_mono_r_iff 2); lia).
  lia.
Qed.

(** The product of two canonical mantissas has at least the precision that
    the sum of the exponents calls for. *)
Lemma product_precise (mx my : positive) (ex ey : Z) :
  round_exp prec emax mx ex = ex -> round_exp prec emax my ey = ey ->
  ex + ey <= round_exp prec emax (mx * my) (ex + ey).
Proof.
  unfold round_exp, SpecFloat.fexp. intros Hx Hy.
  pose proof (digits2_mul_ge mx my) as Dx.
  pose proof (digits2_mul_ge my mx) as Dy. rewrite (Pos.mul_comm my mx) in Dy.
  pose proof emin_nonpos. lia.
Qed.

Lemma SFleb_val_le (m1 m2 : positive) (e1 e2 : Z) :
  round_exp prec emax m1 e1 = e1 -> round_exp prec emax m2 e2 = e2 ->
  SFleb (S754_finite false m1 e1) (S754_finite false m2 e2) = true ->
  val_le (Zpos m1) e1 (Zpos m2) e2.
Proof.
  unfold round_exp, SpecFloat.fexp, val_le. intros H1 H2 Hle.
  unfold SFleb, SFcompare in Hle.
  destruct (Z.compare_spec e1 e2) as [->|Hlt|Hgt]; [| |discriminate].
  - fold (Pos.compare m1 m2) in Hle.
    destruct (Pos.compare_spec m1 m2); try discriminate;
      rewrite Z.min_id, Z.sub_diag; simpl; lia.
  - rewrite Z.min_l, Z.sub_diag by lia. rewrite Z.mul_1_r.
    pose proof (digits2_bounds m1) as [_ Hhi].
    pose proof (digits2_bounds m2) as [Hlo _].
    assert (Hd2 : Zpos (digits2_pos m2) = prec) by lia.
    assert (Hd1 : Zpos (digits2_pos m1) <= prec) by lia.
    rewrite Hd2 in Hlo.
    assert (2 ^ Zpos (digits2_pos m1) <= 2 ^ prec) by (apply Z.pow_le_mono_r; lia).
    assert (2 ^ 1 <= 2 ^ (e2 - e1)) by (apply Z.pow_le_mono_r; lia).
    assert (Hpow : 2 ^ prec = 2 * 2 ^ (prec - 1)).
    { replace prec with (1 + (prec - 1)) at 1 by lia.
      rewrite Z.pow_add_r by lia. reflexivity. }
    change (2 ^ 1) with 2 in *. nia.
Qed.

Lemma val_le_mul (m d M1 M2 E1 E2 : Z) :
  0 <= m -> val_le M1 E1 M2 E2 -> val_le (m * M1) (d + E1) (m * M2) (d + E2).
Proof.
  unfold val_le. intros Hm H.
  replace (d + E1 - Z.min (d + E1) (d + E2)) with (E1 - Z.min E1 E2) by lia.
  replace (d + E2 - Z.min (d + E1) (d + E2)) with (E2 - Z.min E1 E2) by lia.
  rewrite <- !Z.mul_assoc. apply Z.mul_le_mono_nonneg_l; assumption.
Qed.

(** The rounded product of two positive numbers is zero, positive or plus
    infinity. *)
Lemma binary_round_aux_nonneg (M : positive) (E : Z) :
  E <= round_exp prec emax M E ->
  nonneg (binary_round_aux prec emax false (Zpos M) E loc_Exact)
  /\ Float32.is_nan (binary_round_aux prec emax false (Zpos M) E loc_Exact) = false.
Proof.
  intros HE. destruct (binary_round_aux_exact false M E HE) as (mrs & _ & ->).
  unfold finalize, nonneg.
  destruct (rne mrs =? 0); [split; reflexivity|].
  destruct (rne mrs <? 2 ^ prec);
    [destruct (round_exp prec emax M E <=? emax - prec)
    |destruct (round_exp prec emax M E + 1 <=? emax - prec)];
    split; reflexivity.
Qed.

(** Multiplication by a non-negative number is monotone below a cap. *)
Lemma SFmul_monotone_capped (d s1 s2 c : spec_float) :
  valid_binary prec emax d = true ->
  valid_binary prec emax s1 = true ->
  valid_binary prec emax s2 = true ->
  nonneg d -> nonneg s1 -> SFleb s1 s2 = true -> Float32.is_nan c = false ->
  SFleb (min (SFmul prec emax d s1) c) (min (SFmul prec emax d s2) c) = true.
Proof.
  intros Vd V1 V2 Hd H1 H12 Hc.
  assert (Hcc : SFleb c c = true) by (apply SFleb_refl, Hc).
  assert (Hmin : forall a, SFleb (min a c) c = true).
  { intros a. unfold min, Float32.ltb. destruct (SFltb a c) eqn:Ha; [|exact Hcc].
    apply SFltb_leb, Ha. }
  assert (Hinf : min (S754_infinity false) c = c).
  { unfold min, Float32.ltb, SFltb, SFcompare. destruct c as [?|[|]| |[|] ? ?]; try reflexivity;
      discriminate. }
  assert (Hnan : min S754_nan c = c) by reflexivity.
  destruct d as [sd|[|]| |[|] md ed]; try discriminate Hd;
    destruct s1 as [z1|[|]| |[|] m1 e1]; try discriminate H1;
    destruct s2 as [z2|[|]| |[|] m2 e2]; try discriminate H12;
    cbn [SFmul xorb]; rewrite ?Hinf, ?Hnan; try exact Hcc; try apply Hmin;
    (apply min_monotone; [exact Hc|]); try reflexivity;
    simpl valid_binary in *;
    pose proof (product_precise md m2 ed e2
                  (bounded_canonical _ _ Vd) (bounded_canonical _ _ V2)) as P2.
  - apply nonneg_zero_le, binary_round_aux_nonneg, P2.
  - pose proof (product_precise md m1 ed e1
                  (bounded_canonical _ _ Vd) (bounded_canonical _ _ V1)) as P1.
    apply binary_round_aux_monotone; [exact P1|exact P2|].
    rewrite !Pos2Z.inj_mul. apply val_le_mul; [lia|].
    apply SFleb_val_le; [apply bounded_canonical, V1|apply bounded_canonical, V2|exact H12].
Qed.

End Rounding.

(** ** [initInputParams] and the queries *)

Section StateFacts.
Context `{D : Defines} `{CU : CharUtils} `{U : ProximityInfoStateUtils}.

Lemma initInputParams_asserted st pointerId maxPointToKeyLength proximityInfo
    inputCodes inputSize xCoordinates yCoordinates times pointerIds isGeometric :
  initInputParams st pointerId maxPointToKeyLength proximityInfo inputCodes inputSize
    xCoordinates yCoordinates times pointerIds isGeometric = None
  <-> initInputParams_precondition isGeometric inputSize = false.
Proof.
  unfold initInputParams.
  destruct (initInputParams_precondition isGeometric inputSize); simpl.
  - name_helper_results. split; discriminate.
  - split; reflexivity.
Qed.

(** C5, as the code has it: the entry assertion of [initInputParams]
    rejects a call exactly when the call is in tap mode and
    [inputSize >= MAX_WORD_LENGTH]; a tap-mode call with
    [inputSize < MAX_WORD_LENGTH] passes, and no geometric call is
    rejected. *)
Theorem entry_assertion_rejects_iff st pointerId maxPointToKeyLength proximityInfo
    inputCodes inputSize xCoordinates yCoordinates times pointerIds isGeometric :
  initInputParams st pointerId maxPointToKeyLength proximityInfo inputCodes inputSize
    xCoordinates yCoordinates times pointerIds isGeometric = None
  <-> isGeometric = false /\ MAX_WORD_LENGTH <= inputSize.
Proof.
  rewrite initInputParams_asserted. unfold initInputParams_precondition.
  destruct isGeometric; simpl.
  - split; [discriminate|intros [? _]; discriminate].
  - rewrite Z.ltb_ge. tauto.
Qed.

(** C6: after every [initInputParams] the field [mGridHeight] holds the
    layout's [getGridWidth()] and the field [mGridWidth] holds its
    [getGridHeight()]. *)
Theorem grid_dimensions_swapped st pointerId maxPointToKeyLength proximityInfo
    inputCodes inputSize xCoordinates yCoordinates times pointerIds isGeometric st' :
  initInputParams st pointerId maxPointToKeyLength proximityInfo inputCodes inputSize
    xCoordinates yCoordinates times pointerIds isGeometric = Some st' ->
  mGridHeight st' = getGridWidth proximityInfo
  /\ mGridWidth st' = getGridHeight proximityInfo.
Proof.
  unfold initInputParams.
  destruct (initInputParams_precondition isGeometric inputSize); simpl; [|discriminate].
  name_helper_results. intros [= <-]. split; reflexivity.
Qed.

(** The sampled arrays that [initInputParams] leaves: the arrays of the
    previous call less their last two entries in continuation mode, none
    otherwise, as [updateTouchPoints] extends them. *)
Lemma initInputParams_sampled st pointerId maxPointToKeyLength proximityInfo
    inputCodes inputSize xCoordinates yCoordinates times pointerIds isGeometric st' :
  initInputParams st pointerId maxPointToKeyLength proximityInfo inputCodes inputSize
    xCoordinates yCoordinates times pointerIds isGeometric = Some st' ->
  let continue :=
    mIsContinuationPossible st'
    && (1 <? Z.of_nat (length (mSampledInputIndice st))) in
  let trimmed := trimLastTwoTouchPoints (sampled_of st) in
  let start := if continue then trimmed.1 else 0 in
  let kept := if continue then trimmed.2 else no_samples in
  sampled_of st'
  = match xCoordinates, yCoordinates with
    | Some xs, Some ys =>
      (updateTouchPoints proximityInfo maxPointToKeyLength (mInputProximities st')
         xs ys times pointerIds inputSize isGeometric pointerId start kept).2
    | _, _ => kept
    end.
Proof.
  unfold initInputParams.
  destruct (initInputParams_precondition isGeometric inputSize);
    cbn [mbind option_bind ASSERT]; [|discriminate].
  set (c := checkAndReturnIsContinuationPossible _ _ _ _ _ _ _ _ _ && _).
  set (T := trimLastTwoTouchPoints (sampled_of st)).
  destruct (if c then T else (0, no_samples)) as [start kept] eqn:E0.
  match goal with
  | |- context [let '(_, _) := ?e in _] => destruct e as [M sampled] eqn:E1
  end.
  name_helper_results. intros [= <-].
  cbv zeta. unfold sampled_of at 1.
  cbn [mSampledInputXs mSampledInputYs mSampledTimes
    mSampledLengthCache mSampledInputIndice mIsContinuationPossible mInputProximities].
  fold c. fold T.
  destruct c; [rewrite E0|injection E0 as <- <-]; cbn [fst snd];
    destruct xCoordinates, yCoordinates;
    first [rewrite E1|injection E1 as _ <-]; cbn [snd];
    match goal with |- context [sampledXs ?s] => now destruct s end.
Qed.

Lemma take_of_extension {A : Type} (k : nat) (v v' : list A) :
  (k <= length v)%nat -> take k v `prefix_of` v' -> take k v' = take k v.
Proof.
  intros Hk [w ->]. apply take_app_length'. rewrite length_take. lia.
Qed.

Lemma appended_refl (s : Sampled) : appended s s.
Proof. unfold appended. repeat split; reflexivity. Qed.

(** C2: when [initInputParams] takes the continuation branch (the
    continuation check succeeded and the previous call left more than one
    sample), the last two entries of every sampled array of the previous
    call are dropped and sampling is done again from the raw point after
    the one of the second last sample: the sampled arrays of the new state
    are what [updateTouchPoints] makes, from that raw point on, of the
    first [M_prev - 2] entries that the previous call left.  Every sampled
    array of the new state so starts with these [M_prev - 2] entries, and
    differs from them only by entries appended after them. *)
Theorem continuation_preserves_prefix st pointerId maxPointToKeyLength proximityInfo
    inputCodes inputSize xCoordinates yCoordinates times pointerIds isGeometric st' :
  appends_only ->
  parallel (sampled_of st) ->
  initInputParams st pointerId maxPointToKeyLength proximityInfo inputCodes inputSize
    xCoordinates yCoordinates times pointerIds isGeometric = Some st' ->
  mIsContinuationPossible st' = true ->
  (1 < length (mSampledInputIndice st))%nat ->
  let k := (length (mSampledInputXs st) - 2)%nat in
  let kept := prefix_of_length k (sampled_of st) in
  let pushStart := Int32.add (default 0 (mSampledInputIndice st !! k)) 1 in
  sampled_of st'
  = match xCoordinates, yCoordinates with
    | Some xs, Some ys =>
      (updateTouchPoints proximityInfo maxPointToKeyLength (mInputProximities st')
         xs ys times pointerIds inputSize isGeometric pointerId pushStart kept).2
    | _, _ => kept
    end
  /\ prefix_of_length k (sampled_of st') = kept
  /\ appended kept (sampled_of st').
Proof.
  intros Happ (Hy & Ht & Hl & Hi) Hinit Hflag Hsize k kept pushStart.
  pose proof (initInputParams_sampled _ _ _ _ _ _ _ _ _ _ _ _ Hinit) as Hs.
  cbv zeta in Hs. rewrite Hflag in Hs.
  assert (Hone : (1 <? Z.of_nat (length (mSampledInputIndice st))) = true)
    by (apply Z.ltb_lt; lia).
  rewrite Hone in Hs. cbn [andb] in Hs.
  assert (Htrim : trimLastTwoTouchPoints (sampled_of st) = (pushStart, kept)).
  { unfold trimLastTwoTouchPoints, kept, pushStart, prefix_of_length, pop2, k.
    cbn [sampled_of sampledXs sampledYs sampledTimes sampledLengthCache sampledIndice]
      in *.
    rewrite Hy, Ht, Hl, Hi. reflexivity. }
  rewrite Htrim in Hs. cbn [fst snd] in Hs.
  assert (Hext : appended kept (sampled_of st')).
  { rewrite Hs. destruct xCoordinates, yCoordinates;
      first [apply Happ|apply appended_refl]. }
  split; [exact Hs|]. split; [|exact Hext].
  destruct Hext as (Ex & Ey & Et & El & Ei).
  unfold kept in *.
  cbn [prefix_of_length sampled_of sampledXs sampledYs sampledTimes
         sampledLengthCache sampledIndice] in *.
  unfold prefix_of_length. cbn [sampled_of sampledXs sampledYs sampledTimes
         sampledLengthCache sampledIndice].
  f_equal; apply take_of_extension; (lia || assumption).
Qed.

(** The flag that [initInputParams] stores is the result of the
    continuation check against the previous state. *)
Lemma initInputParams_flag st pointerId maxPointToKeyLength proximityInfo
    inputCodes inputSize xCoordinates yCoordinates times pointerIds isGeometric st' :
  initInputParams st pointerId maxPointToKeyLength proximityInfo inputCodes inputSize
    xCoordinates yCoordinates times pointerIds isGeometric = Some st' ->
  mIsContinuationPossible st'
  = checkAndReturnIsContinuationPossible inputSize xCoordinates yCoordinates times
      (mSampledInputSize st) (mSampledInputXs st) (mSampledInputYs st)
      (mSampledTimes st) (mSampledInputIndice st).
Proof.
  unfold initInputParams.
  destruct (initInputParams_precondition isGeometric inputSize);
    cbn [mbind option_bind ASSERT]; [|discriminate].
  name_helper_results. intros [= <-]. reflexivity.
Qed.

(** A run that does not continue the previous one clears the sampled
    data first: what it leaves in the sampled arrays and as the most
    probable string does not depend on the state it started from, except
    that a run without samples or in tap mode leaves the string buffer as
    it was. *)
Lemma fresh_run_independent sa sb pointerId maxPointToKeyLength proximityInfo
    inputCodes inputSize xCoordinates yCoordinates times pointerIds isGeometric sa' sb' :
  initInputParams sa pointerId maxPointToKeyLength proximityInfo inputCodes inputSize
    xCoordinates yCoordinates times pointerIds isGeometric = Some sa' ->
  initInputParams sb pointerId maxPointToKeyLength proximityInfo inputCodes inputSize
    xCoordinates yCoordinates times pointerIds isGeometric = Some sb' ->
  mIsContinuationPossible sa'
  && (1 <? Z.of_nat (length (mSampledInputIndice sa))) = false ->
  mIsContinuationPossible sb'
  && (1 <? Z.of_nat (length (mSampledInputIndice sb))) = false ->
  sampled_of sa' = sampled_of sb'
  /\ mMostProbableStringProbability sa' = mMostProbableStringProbability sb'
  /\ (mMostProbableString sa' = mMostProbableString sb'
      \/ (mMostProbableString sa' = mMostProbableString sa
          /\ mMostProbableString sb' = mMostProbableString sb)).
Proof.
  intros Ha Hb.
  rewrite (initInputParams_flag _ _ _ _ _ _ _ _ _ _ _ _ Ha).
  rewrite (initInputParams_flag _ _ _ _ _ _ _ _ _ _ _ _ Hb).
  revert Ha Hb. unfold initInputParams.
  destruct (initInputParams_precondition isGeometric inputSize);
    cbn [mbind option_bind ASSERT]; [|discriminate].
  intros Ha Hb Hca Hcb. revert Ha Hb. rewrite Hca, Hcb.
  match goal with
  | |- context [let '(_, _) := ?e in _] => destruct e as [M sampled]
  end.
  destruct (0 <? M), isGeometric; cbn [andb];
    name_helper_results; intros [= <-] [= <-];
    (split; [reflexivity|]); (split; [reflexivity|]);
    first [left; reflexivity|right; split; reflexivity].
Qed.

(** The sampled size that [initInputParams] leaves is the one that
    [updateTouchPoints] returns, and zero without coordinates. *)
Lemma initInputParams_size st pointerId maxPointToKeyLength proximityInfo
    inputCodes inputSize xCoordinates yCoordinates times pointerIds isGeometric st' :
  initInputParams st pointerId maxPointToKeyLength proximityInfo inputCodes inputSize
    xCoordinates yCoordinates times pointerIds isGeometric = Some st' ->
  let continue :=
    mIsContinuationPossible st'
    && (1 <? Z.of_nat (length (mSampledInputIndice st))) in
  let trimmed := trimLastTwoTouchPoints (sampled_of st) in
  let start := if continue then trimmed.1 else 0 in
  let kept := if continue then trimmed.2 else no_samples in
  mSampledInputSize st'
  = match xCoordinates, yCoordinates with
    | Some xs, Some ys =>
      (updateTouchPoints proximityInfo maxPointToKeyLength (mInputProximities st')
         xs ys times pointerIds inputSize isGeometric pointerId start kept).1
    | _, _ => 0
    end.
Proof.
  unfold initInputParams.
  destruct (initInputParams_precondition isGeometric inputSize);
    cbn [mbind option_bind ASSERT]; [|discriminate].
  set (c := checkAndReturnIsContinuationPossible _ _ _ _ _ _ _ _ _ && _).
  set (T := trimLastTwoTouchPoints (sampled_of st)).
  destruct (if c then T else (0, no_samples)) as [start kept] eqn:E0.
  match goal with
  | |- context [let '(_, _) := ?e in _] => destruct e as [M sampled] eqn:E1
  end.
  name_helper_results. intros [= <-].
  cbv zeta.
  cbn [mSampledInputSize mIsContinuationPossible mInputProximities].
  fold c. fold T.
  destruct c; [rewrite E0|injection E0 as <- <-]; cbn [fst snd];
    destruct xCoordinates, yCoordinates;
    first [rewrite E1; reflexivity|injection E1 as <- _; reflexivity].
Qed.


Lemma wrap_in_range (z : Z) : Int32.in_range z -> Int32.wrap z = z.
Proof.
  unfold Int32.in_range, Int32.min_signed, Int32.max_signed, Int32.wrap.
  intros Hz. rewrite Z.mod_small; lia.
Qed.

(** C7: for an index in [0, mSampledInputSize) that has a probability map,
    [getProbability] returns the probability stored for the key when the
    map has an entry for it, and [MAX_POINT_TO_KEY_LENGTH] converted to
    [float] when it has none. *)
Theorem getProbability_lookup (st : ProximityInfoState) (index keyIndex : Z)
    (probabilities : gmap Z float) :
  0 <= index < mSampledInputSize st ->
  at_index (mCharProbabilities st) index = Some probabilities ->
  (forall p, probabilities !! keyIndex = Some p ->
             getProbability st index keyIndex = Some p)
  /\ (probabilities !! keyIndex = None ->
      getProbability st index keyIndex
      = Some (Float32.of_int MAX_POINT_TO_KEY_LENGTH)).
Proof.
  intros [Hlo Hhi] Hmap. unfold getProbability.
  apply Z.leb_le in Hlo. apply Z.ltb_lt in Hhi.
  rewrite Hlo, Hhi, Hmap. simpl.
  split; [intros p Hp|intros Hp]; rewrite Hp; reflexivity.
Qed.

(** C10: in a state whose sampled size is a non-negative [int],
    [getLineToKeyDistance] returns [0.0f] as soon as [from] or [to] is
    outside [0, mSampledInputSize - 1], whatever the key and the [extend]
    flag; the call succeeds, so no vector is read out of its bounds. *)
Theorem getLineToKeyDistance_out_of_range (st : ProximityInfoState)
    (from to keyId : Z) (extend : bool) :
  0 <= mSampledInputSize st <= Int32.max_signed ->
  from < 0 \/ mSampledInputSize st - 1 < from
  \/ to < 0 \/ mSampledInputSize st - 1 < to ->
  getLineToKeyDistance st from to keyId extend = Some Float32.zero.
Proof.
  intros HM Hout. unfold getLineToKeyDistance, Int32.sub.
  rewrite wrap_in_range
    by (unfold Int32.in_range, Int32.min_signed, Int32.max_signed in *; lia).
  destruct (Z.ltb_spec from 0); simpl; [reflexivity|].
  destruct (Z.ltb_spec (mSampledInputSize st - 1) from); simpl; [reflexivity|].
  destruct (Z.ltb_spec to 0); simpl; [reflexivity|].
  destruct (Z.ltb_spec (mSampledInputSize st - 1) to); simpl; [reflexivity|].
  lia.
Qed.

(** C3, as the code has it: with [k] the key id of the code point, the
    result of [getPointToKeyLength] is [min(d * scale, mMaxPointToKeyLength)]
    for the cached entry [d = Dist2[i][k]] when the code point has a key
    (the entry is used as it is stored: no square root is taken); [0.0f]
    when it has no key and is skippable; and [MAX_POINT_TO_KEY_LENGTH]
    when it has no key and is not skippable. *)
Theorem getPointToKeyLength_cases (st : ProximityInfoState)
    (proximityInfo : ProximityInfo) (inputIndex codePoint : Z) (scale : float) :
  mProximityInfo st = Some proximityInfo ->
  let keyCount := getKeyCount proximityInfo in
  let k := getKeyIndexOf proximityInfo codePoint in
  (forall d,
      k <> NOT_AN_INDEX ->
      0 <= inputIndex -> 0 <= keyCount -> 0 <= k ->
      inputIndex * keyCount + k <= Int32.max_signed ->
      Dist2 st keyCount inputIndex k = Some d ->
      getPointToKeyLength st inputIndex codePoint scale
      = Some (min (Float32.mul d scale) (mMaxPointToKeyLength st)))
  /\ (k = NOT_AN_INDEX -> isSkippableCodePoint codePoint = true ->
      getPointToKeyLength st inputIndex codePoint scale = Some Float32.zero)
  /\ (k = NOT_AN_INDEX -> isSkippableCodePoint codePoint = false ->
      getPointToKeyLength st inputIndex codePoint scale
      = Some (Float32.of_int MAX_POINT_TO_KEY_LENGTH)).
Proof.
  intros Hpi keyCount k. unfold getPointToKeyLength. rewrite Hpi. simpl.
  fold k. fold keyCount. repeat split.
  - intros d Hk Hi Hc Hk0 Hmax Hd.
    apply Z.eqb_neq in Hk. rewrite Hk. simpl.
    unfold Int32.add, Int32.mul.
    assert (0 <= inputIndex * keyCount) by nia.
    rewrite (wrap_in_range (inputIndex * keyCount))
      by (unfold Int32.in_range, Int32.min_signed in *; lia).
    rewrite wrap_in_range by (unfold Int32.in_range, Int32.min_signed in *; lia).
    unfold Dist2 in Hd. rewrite Hd. reflexivity.
  - intros Hk Hskip. apply Z.eqb_eq in Hk. rewrite Hk, Hskip. reflexivity.
  - intros Hk Hskip. apply Z.eqb_eq in Hk. rewrite Hk, Hskip. reflexivity.
Qed.

(** Below a cap that is a number, the product of a binary32 number that is
    not negative with a scale is monotone in the scale. *)
Lemma monotone_in_scale_capped (d s1 s2 c : float) :
  Float32.valid d = true -> Float32.valid s1 = true -> Float32.valid s2 = true ->
  Float32.leb Float32.zero d = true ->
  Float32.leb Float32.zero s1 = true -> Float32.leb s1 s2 = true ->
  Float32.is_nan c = false ->
  Float32.leb (min (Float32.mul d s1) c) (min (Float32.mul d s2) c) = true.
Proof.
  intros. apply (SFmul_monotone_capped Float32.prec Float32.emax);
    (reflexivity || assumption).
Qed.

(** C8: in a state whose cached distances are binary32 numbers that are not
    negative, for every input index and code point on which
    [getPointToKeyLength] is defined, and for all binary32 scales
    [0 <= s1 <= s2]: the result for [s2] is not below the result for [s1],
    and [getPointToKeyLength(i, cp, s1) <= getPointToKeyLength(i, cp, s2)]
    when the cap [mMaxPointToKeyLength] is a number. *)
Theorem getPointToKeyLength_monotone (st : ProximityInfoState)
    (inputIndex codePoint : Z) (s1 s2 r1 r2 : float) :
  Forall (fun d => Float32.valid d = true /\ Float32.leb Float32.zero d = true)
    (mSampledDistanceCache_G st) ->
  Float32.valid s1 = true -> Float32.valid s2 = true ->
  Float32.leb Float32.zero s1 = true -> Float32.leb s1 s2 = true ->
  getPointToKeyLength st inputIndex codePoint s1 = Some r1 ->
  getPointToKeyLength st inputIndex codePoint s2 = Some r2 ->
  Float32.ltb r2 r1 = false
  /\ (Float32.is_nan (mMaxPointToKeyLength st) = false -> Float32.leb r1 r2 = true).
Proof.
  intros Hcache V1 V2 H1 H12 Hr1 Hr2.
  assert (Hle : Float32.is_nan (mMaxPointToKeyLength st) = false ->
                Float32.leb r1 r2 = true).
  { intros Hcap. revert Hr1 Hr2. unfold getPointToKeyLength.
    destruct (mProximityInfo st) as [proximityInfo|]; [|discriminate].
    cbn [mbind option_bind].
    destruct (negb (getKeyIndexOf proximityInfo codePoint =? NOT_AN_INDEX)).
    - set (index := Int32.add _ _).
      destruct (at_index (mSampledDistanceCache_G st) index) as [d|] eqn:Hd;
        [|discriminate].
      cbn [mbind option_bind]. intros [= <-] [= <-].
      assert (Hin : Float32.valid d = true /\ Float32.leb Float32.zero d = true).
      { unfold at_index in Hd. destruct (index <? 0); [discriminate|].
        rewrite Forall_lookup in Hcache. exact (Hcache _ _ Hd). }
      destruct Hin as [Vd Hd0].
      apply monotone_in_scale_capped; assumption.
    - destruct (isSkippableCodePoint codePoint); intros [= <-] [= <-].
      + reflexivity.
      + apply SFleb_refl, of_int_not_nan. }
  split; [|exact Hle].
  destruct (Float32.is_nan (mMaxPointToKeyLength st)) eqn:Hcap.
  - revert Hr1 Hr2. unfold getPointToKeyLength.
    destruct (mProximityInfo st) as [proximityInfo|]; [|discriminate].
    cbn [mbind option_bind].
    destruct (negb (getKeyIndexOf proximityInfo codePoint =? NOT_AN_INDEX)).
    + destruct (at_index (mSampledDistanceCache_G st) _) as [d|]; [|discriminate].
      cbn [mbind option_bind].
      destruct (mMaxPointToKeyLength st); try discriminate Hcap.
      rewrite !min_nan_r. intros [= <-] [= <-]. reflexivity.
    + destruct (isSkippableCodePoint codePoint); intros [= <-] [= <-].
      * reflexivity.
      * apply SFleb_not_ltb, SFleb_refl, of_int_not_nan.
  - apply SFleb_not_ltb, Hle. reflexivity.
Qed.

(** C9: [initInputParams] on a state that no call has touched, with
    [inputSize = 0], succeeds (in tap mode because [MAX_WORD_LENGTH] is
    positive) and leaves [mSampledInputSize = 0]; [getMostProbableString]
    then copies out a buffer of zeros, the empty string, and returns the
    probability [0.0f]. *)
Theorem zero_input_points pointerId maxPointToKeyLength proximityInfo
    inputCodes xCoordinates yCoordinates times pointerIds isGeometric :
  sampled_size_bounded ->
  0 < MAX_WORD_LENGTH ->
  exists st',
    initInputParams fresh pointerId maxPointToKeyLength proximityInfo inputCodes 0
      xCoordinates yCoordinates times pointerIds isGeometric = Some st'
    /\ mSampledInputSize st' = 0
    /\ getMostProbableString st'
       = (Float32.zero, replicate (Z.to_nat MAX_WORD_LENGTH) 0).
Proof.
  intros Hbound Hmax. unfold initInputParams, initInputParams_precondition.
  apply Z.ltb_lt in Hmax. rewrite Hmax, orb_true_r. simpl.
  rewrite andb_false_r.
  assert (HM : forall xs ys inputProximities,
             (updateTouchPoints proximityInfo maxPointToKeyLength inputProximities
                xs ys times pointerIds 0 isGeometric pointerId 0 no_samples).1 = 0).
  { intros xs ys inputProximities.
    pose proof (Hbound proximityInfo maxPointToKeyLength inputProximities xs ys times
                  pointerIds 0 isGeometric pointerId). lia. }
  assert (Hsize :
    (match xCoordinates, yCoordinates with
     | Some xs, Some ys =>
       updateTouchPoints proximityInfo maxPointToKeyLength
         (if negb isGeometric && (pointerId =? 0)
          then initializeProximities proximityInfo inputCodes xCoordinates
                 yCoordinates 0
                 (replicate (Z.to_nat (MAX_PROXIMITY_CHARS_SIZE * MAX_WORD_LENGTH)) 0)
          else replicate (Z.to_nat (MAX_PROXIMITY_CHARS_SIZE * MAX_WORD_LENGTH)) 0)
         xs ys times pointerIds 0 isGeometric pointerId 0 no_samples
     | _, _ => (0, no_samples)
     end).1 = 0).
  { destruct xCoordinates, yCoordinates; try reflexivity. apply HM. }
  destruct (match xCoordinates, yCoordinates with
            | Some xs, Some ys => _
            | _, _ => _
            end) as [M sampled].
  simpl in Hsize. subst M. simpl.
  eexists. split; [reflexivity|]. split; reflexivity.
Qed.

End StateFacts.

(** ** The properties on the sample keyboard *)

Section SampleFacts.
#[local] Existing Instances Sample.defines Sample.chars Sample.utils.

Lemma sample_appends_only : appends_only.
Proof.
  intros proximityInfo maxPointToKeyLength inputProximities xs ys times pointerIds
         inputSize isGeometric pointerId start s.
  unfold appended. cbn. repeat split; apply prefix_app_r; reflexivity.
Qed.

Lemma sample_sampled_size_bounded : sampled_size_bounded.
Proof.
  intros proximityInfo maxPointToKeyLength inputProximities xs ys times pointerIds
         inputSize isGeometric pointerId HN.
  cbn. rewrite length_fmap, length_seqZ. lia.
Qed.

Lemma sample_continuation_needs_longer_input : continuation_needs_longer_input.
Proof.
  intros proximityInfo maxPointToKeyLength inputProximities xs ys times pointerIds
         inputSize isGeometric pointerId inputSize' xs' ys' times'.
  cbn. rewrite length_fmap, length_seqZ.
  intros Hcheck. apply andb_true_iff in Hcheck as [Hsize _].
  apply Z.ltb_lt in Hsize. lia.
Qed.

(** The query [q] on the slot of the tap on [a]: a neighbour is NEAR and
    its index is written; a code point of the additional list is
    ADDITIONAL. *)
Lemma getMatchedProximityId_classifies_witness :
  (exists log,
      getMatchedProximityId Sample.tap_a 0 113 true (Some 0) []
      = Some (NEAR_PROXIMITY_CHAR, Some 2, log)
      /\ Forall in_slot log)
  /\ (exists log,
         getMatchedProximityId Sample.tap_a 0 122 true None []
         = Some (ADDITIONAL_PROXIMITY_CHAR, None, log)
         /\ Forall in_slot log).
Proof.
  split.
  - destruct (getMatchedProximityId_classifies Sample.tap_a 0 113 true (Some 0))
      as (log & Hrun & Hlog);
      [reflexivity|vm_compute; reflexivity
      |vm_compute; split; [discriminate|reflexivity]|].
    exists log. split; [rewrite Hrun; reflexivity|exact Hlog].
  - destruct (getMatchedProximityId_classifies Sample.tap_a 0 122 true None)
      as (log & Hrun & Hlog);
      [reflexivity|vm_compute; reflexivity
      |vm_compute; split; [discriminate|reflexivity]|].
    exists log. split; [rewrite Hrun; reflexivity|exact Hlog].
Defined.

(** Scenario 1 of spec 8, on the tap on [a]: the typed letter is
    EQUIVALENT, another letter is UNRELATED without [checkProximity]. *)
Example tap_a_classes :
  (fst <$> getMatchedProximityId Sample.tap_a 0 97 false None [])
  = Some (EQUIVALENT_CHAR, None)
  /\ (fst <$> getMatchedProximityId Sample.tap_a 0 98 false None [])
     = Some (UNRELATED_CHAR, None)
  /\ (fst <$> getMatchedProximityId Sample.tap_a 0 115 true (Some 0) [])
     = Some (NEAR_PROXIMITY_CHAR, Some 1).
Proof. repeat split; vm_compute; reflexivity. Qed.

Lemma continuation_preserves_prefix_witness :
  sampled_of Sample.swipe4
  = (updateTouchPoints Sample.layout Sample.maxLength
       (mInputProximities Sample.swipe4) [0; 50; 100; 150] [0; 0; 0; 0]
       (Some [0; 30; 60; 90]) (Some [0; 0; 0; 0]) 4 true 0 2
       (prefix_of_length 1 (sampled_of Sample.swipe3))).2
  /\ prefix_of_length 1 (sampled_of Sample.swipe4)
     = prefix_of_length 1 (sampled_of Sample.swipe3)
  /\ appended (prefix_of_length 1 (sampled_of Sample.swipe3))
       (sampled_of Sample.swipe4).
Proof.
  apply (continuation_preserves_prefix Sample.swipe3 0 Sample.maxLength Sample.layout
           None 4 (Some [0; 50; 100; 150]) (Some [0; 0; 0; 0]) (Some [0; 30; 60; 90])
           (Some [0; 0; 0; 0]) true Sample.swipe4).
  - exact sample_appends_only.
  - vm_compute. repeat split.
  - vm_compute. reflexivity.
  - vm_compute. reflexivity.
  - vm_compute. lia.
Defined.

Lemma getPointToKeyLength_cases_witness :
  getPointToKeyLength Sample.tap_a 0 97 Sample.one
  = Some (min (Float32.mul (Float32.of_int 4) Sample.one) Sample.maxLength)
  /\ getPointToKeyLength Sample.tap_a 0 45 Sample.one = Some Float32.zero
  /\ getPointToKeyLength Sample.tap_a 0 120 Sample.one
     = Some (Float32.of_int 10000000).
Proof.
  destruct (getPointToKeyLength_cases Sample.tap_a Sample.layout 0 97 Sample.one)
    as (Hkey & _ & _); [vm_compute; reflexivity|].
  destruct (getPointToKeyLength_cases Sample.tap_a Sample.layout 0 45 Sample.one)
    as (_ & Hskip & _); [vm_compute; reflexivity|].
  destruct (getPointToKeyLength_cases Sample.tap_a Sample.layout 0 120 Sample.one)
    as (_ & _ & Hnone); [vm_compute; reflexivity|].
  split; [|split].
  - apply Hkey; try (vm_compute; (discriminate || reflexivity)).
  - apply Hskip; vm_compute; reflexivity.
  - apply Hnone; vm_compute; reflexivity.
Defined.

(** The tap on [a] is at squared distance 4 from the key: the result is
    4, and the value stated with a square root is 2. *)
Lemma getPointToKeyLength_takes_no_root :
  Dist2 Sample.tap_a 3 0 0 = Some (Float32.of_int 4)
  /\ getPointToKeyLength Sample.tap_a 0 97 Sample.one = Some (Float32.of_int 4)
  /\ pointToKeyLength_stated (Float32.of_int 4) Sample.one
       (mMaxPointToKeyLength Sample.tap_a) = Float32.of_int 2
  /\ getPointToKeyLength Sample.tap_a 0 97 Sample.one
     <> Some (pointToKeyLength_stated (Float32.of_int 4) Sample.one
                (mMaxPointToKeyLength Sample.tap_a)).
Proof.
  repeat split; try (vm_compute; reflexivity).
  vm_compute. discriminate.
Qed.



(** A tap-mode call with [inputSize = MAX_WORD_LENGTH] is rejected. *)
Lemma entry_assertion_rejects_max_word_length :
  48 <= MAX_WORD_LENGTH
  /\ initInputParams fresh 0 Sample.maxLength Sample.layout None 48
       None None None None false = None.
Proof. split; [vm_compute; discriminate|vm_compute; reflexivity]. Qed.

Lemma grid_dimensions_swapped_witness :
  mGridHeight Sample.tap_a = 4 /\ mGridWidth Sample.tap_a = 3.
Proof.
  apply (grid_dimensions_swapped fresh 0 Sample.maxLength Sample.layout (Some [97]) 1
           (Some [102]) (Some [200]) (Some [0]) (Some [0]) false Sample.tap_a).
  vm_compute. reflexivity.
Defined.

Lemma getProbability_lookup_witness :
  getProbability Sample.swipe3 0 2 = Some Sample.one
  /\ getProbability Sample.swipe3 0 1 = Some (Float32.of_int 10000000).
Proof.
  destruct (getProbability_lookup Sample.swipe3 0 2 {[ 2 := Sample.one ]})
    as [Hin _]; [vm_compute; split; [discriminate|reflexivity]|vm_compute; reflexivity|].
  destruct (getProbability_lookup Sample.swipe3 0 1 {[ 2 := Sample.one ]})
    as [_ Hout]; [vm_compute; split; [discriminate|reflexivity]|vm_compute; reflexivity|].
  split.
  - apply Hin. vm_compute. reflexivity.
  - apply Hout. vm_compute. reflexivity.
Defined.

(** Doubling the scale on the tap on [a]: from 4 to 8. *)
Lemma getPointToKeyLength_monotone_witness :
  getPointToKeyLength Sample.tap_a 0 97 Sample.one = Some (Float32.of_int 4)
  /\ getPointToKeyLength Sample.tap_a 0 97 (Float32.of_int 2) = Some (Float32.of_int 8)
  /\ Float32.ltb (Float32.of_int 8) (Float32.of_int 4) = false
  /\ Float32.leb (Float32.of_int 4) (Float32.of_int 8) = true.
Proof.
  split; [vm_compute; reflexivity|]. split; [vm_compute; reflexivity|].
  destruct (getPointToKeyLength_monotone Sample.tap_a 0 97 Sample.one
              (Float32.of_int 2) (Float32.of_int 4) (Float32.of_int 8))
    as [Hlt Hle].
  - vm_compute. repeat (apply Forall_cons_2; [split; reflexivity|]). apply Forall_nil_2.
  - vm_compute. reflexivity.
  - vm_compute. reflexivity.
  - vm_compute. reflexivity.
  - vm_compute. reflexivity.
  - vm_compute. reflexivity.
  - vm_compute. reflexivity.
  - split; [exact Hlt|]. apply Hle. vm_compute. reflexivity.
Defined.

Lemma zero_input_points_witness :
  exists st',
    initInputParams fresh 0 Sample.maxLength Sample.layout (Some []) 0
      (Some []) (Some []) (Some []) (Some []) false = Some st'
    /\ mSampledInputSize st' = 0
    /\ getMostProbableString st'
       = (Float32.zero, replicate (Z.to_nat MAX_WORD_LENGTH) 0).
Proof.
  apply (zero_input_points 0 Sample.maxLength Sample.layout (Some []) (Some [])
           (Some []) (Some []) (Some []) false).
  - exact sample_sampled_size_bounded.
  - reflexivity.
Defined.

Lemma getLineToKeyDistance_out_of_range_witness :
  getLineToKeyDistance Sample.swipe3 0 3 1 false = Some Float32.zero.
Proof.
  apply (getLineToKeyDistance_out_of_range Sample.swipe3 0 3 1 false).
  - vm_compute. split; discriminate.
  - right. right. right. vm_compute. reflexivity.
Defined.

End SampleFacts.

(** ** More on [getMatchedProximityId] *)

Section ClassificationMore.
Context `{D : Defines} `{CU : CharUtils}.

Lemma read_inv (p : list Z) (j v : Z) (log log' : list Z) :
  read p j log = Some (v, log') ->
  0 <= j /\ p !! Z.to_nat j = Some v /\ log' = j :: log.
Proof.
  unfold read. destruct (Z.ltb_spec j 0); [discriminate|].
  destruct (p !! Z.to_nat j); [|discriminate].
  intros [= <- <-]. repeat split. assumption.
Qed.

(** Where a scan loop returns from its body, there is an entry above DELIM
    that is the query or its base form. *)
Lemma scan_loop_inl (p : list Z) (c b : Z) (fuel : nat) :
  forall j log j' log',
    scan_loop fuel p c b j log = Some (inl j', log') ->
    j <= j' < MAX_PROXIMITY_CHARS_SIZE
    /\ exists v, p !! Z.to_nat j' = Some v
                 /\ ADDITIONAL_PROXIMITY_CHAR_DELIMITER_CODE < v
                 /\ (v = b \/ v = c).
Proof.
  induction fuel as [|fuel IH]; intros j log j' log'; simpl; [discriminate|].
  destruct (Z.ltb_spec j MAX_PROXIMITY_CHARS_SIZE) as [Hj|Hj]; [|discriminate].
  unfold mbind at 1. unfold Scan_bind at 1.
  destruct (read p j log) as [[cj l1]|] eqn:R1; [|discriminate].
  apply read_inv in R1 as (Hj0 & Hcj & ->).
  destruct (Z.ltb_spec ADDITIONAL_PROXIMITY_CHAR_DELIMITER_CODE cj) as [Hd|Hd];
    [|discriminate].
  unfold mbind at 1. unfold Scan_bind at 1.
  destruct (read p j (j :: log)) as [[cj1 l2]|] eqn:R2; [|discriminate].
  apply read_inv in R2 as (_ & Hcj1 & ->).
  assert (cj1 = cj) as -> by congruence.
  unfold mbind at 1. unfold Scan_bind at 1.
  destruct (Z.eqb_spec cj b) as [Hb|Hb].
  - intros [= <- <-]. split; [lia|]. exists cj. auto.
  - unfold mbind at 1. unfold Scan_bind at 1.
    destruct (read p j (j :: j :: log)) as [[cj2 l3]|] eqn:R3; [|discriminate].
    apply read_inv in R3 as (_ & Hcj2 & ->).
    assert (cj2 = cj) as -> by congruence.
    unfold mret at 1. unfold Scan_ret at 1.
    destruct (Z.eqb_spec cj c) as [Hc|Hc].
    + intros [= <- <-]. split; [lia|]. exists cj. auto.
    + intros Hrec. apply IH in Hrec as [Hr Hv]. split; [lia|exact Hv].
Qed.

(** A scan loop only moves forward. *)
Lemma scan_loop_inr (p : list Z) (c b : Z) (fuel : nat) :
  forall j log j' log',
    scan_loop fuel p c b j log = Some (inr j', log') -> j <= j'.
Proof.
  induction fuel as [|fuel IH]; intros j log j' log'; simpl; [discriminate|].
  destruct (Z.ltb_spec j MAX_PROXIMITY_CHARS_SIZE) as [Hj|Hj];
    [|intros [= <- _]; lia].
  unfold mbind at 1. unfold Scan_bind at 1.
  destruct (read p j log) as [[cj l1]|]; [|discriminate].
  destruct (ADDITIONAL_PROXIMITY_CHAR_DELIMITER_CODE <? cj);
    [|intros [= <- _]; lia].
  unfold mbind at 1. unfold Scan_bind at 1.
  destruct (read p j l1) as [[cj1 l2]|]; [|discriminate].
  unfold mbind at 1. unfold Scan_bind at 1.
  destruct (cj1 =? b).
  - discriminate.
  - unfold mbind at 1. unfold Scan_bind at 1.
    destruct (read p j l2) as [[cj2 l3]|]; [|discriminate].
    unfold mret at 1. unfold Scan_ret at 1.
    destruct (cj2 =? c); [discriminate|].
    intros Hrec. apply IH in Hrec. lia.
Qed.

(** For an index inside [mInputProximities]: without
    [checkProximityChars] the function reads the first entry of the slot
    and nothing else, leaves [*proximityIndex] alone and returns
    EQUIVALENT_CHAR or UNRELATED_CHAR. *)
Theorem getMatchedProximityId_without_check (st : ProximityInfoState)
    (index c v : Z) (proximityIndex : option Z) (log : list Z) :
  0 < MAX_PROXIMITY_CHARS_SIZE ->
  length (mInputProximities st)
  = Z.to_nat (MAX_PROXIMITY_CHARS_SIZE * MAX_WORD_LENGTH) ->
  0 <= index < MAX_WORD_LENGTH ->
  getProximityCodePointsAt st index !! 0%nat = Some v ->
  getMatchedProximityId st index c false proximityIndex log
  = Some (if (v =? toBaseLowerCase c) || (v =? c)
          then EQUIVALENT_CHAR else UNRELATED_CHAR,
          proximityIndex, 0 :: log).
Proof.
  intros _ _ _ Hv. unfold getMatchedProximityId.
  unfold mbind at 1. unfold Scan_bind at 1.
  rewrite (read_Some _ 0 v log) by (lia || exact Hv).
  destruct ((v =? toBaseLowerCase c) || (v =? c)); reflexivity.
Qed.

(** For an index inside [mInputProximities]: the function returns
    EQUIVALENT_CHAR exactly when the first entry of the slot is the query
    or its base form; it then has read that entry only and has left
    [*proximityIndex] alone. *)
Theorem getMatchedProximityId_equivalent_iff (st : ProximityInfoState)
    (index c : Z) (checkProximityChars : bool) (proximityIndex : option Z)
    (log : list Z) (class : ProximityType) (out : option Z) (log' : list Z) :
  0 < MAX_PROXIMITY_CHARS_SIZE ->
  length (mInputProximities st)
  = Z.to_nat (MAX_PROXIMITY_CHARS_SIZE * MAX_WORD_LENGTH) ->
  0 <= index < MAX_WORD_LENGTH ->
  getMatchedProximityId st index c checkProximityChars proximityIndex log
  = Some (class, out, log') ->
  exists v,
    getProximityCodePointsAt st index !! 0%nat = Some v
    /\ (class = EQUIVALENT_CHAR <-> v = toBaseLowerCase c \/ v = c)
    /\ (class = EQUIVALENT_CHAR -> out = proximityIndex /\ log' = 0 :: log).
Proof.
  intros _ _ _. unfold getMatchedProximityId.
  set (p := getProximityCodePointsAt st index).
  unfold mbind at 1. unfold Scan_bind at 1.
  destruct (read p 0 log) as [[v l0]|] eqn:R0; [|discriminate].
  apply read_inv in R0 as (_ & Hv & ->). change (Z.to_nat 0) with 0%nat in Hv.
  intros Hrun. exists v. split; [exact Hv|].
  destruct (Z.eqb_spec v (toBaseLowerCase c)) as [Hb|Hb]; cbn [orb] in Hrun.
  { injection Hrun as <- <- <-. repeat split; auto. }
  destruct (Z.eqb_spec v c) as [Hc|Hc].
  { injection Hrun as <- <- <-. repeat split; auto. }
  assert (Hne : class <> EQUIVALENT_CHAR);
    [|split; [split; [intros; contradiction|intros [?|?]; contradiction]
             |intros; contradiction]].
  destruct checkProximityChars; cbn [negb] in Hrun;
    [|injection Hrun as <- _ _; discriminate].
  destruct (toBaseLowerCase v =? toBaseLowerCase c);
    [injection Hrun as <- _ _; discriminate|].
  revert Hrun. unfold mbind at 1. unfold Scan_bind at 1.
  destruct (scan_loop scan_fuel p c (toBaseLowerCase c) 1 (0 :: log))
    as [[[j|j] l1]|]; [| |discriminate].
  { intros [= <- _ _]. discriminate. }
  unfold mbind at 1. unfold Scan_bind at 1.
  match goal with
  | |- match ?e with _ => _ end = _ -> _ => destruct e as [[[|] l3]|]
  end; [| |discriminate].
  - unfold mbind at 1. unfold Scan_bind at 1.
    destruct (scan_loop scan_fuel p c (toBaseLowerCase c) (j + 1) l3)
      as [[[j'|j'] l4]|]; [| |discriminate];
      intros [= <- _ _]; discriminate.
  - intros [= <- _ _]. discriminate.
Qed.

(** The accent rule, for an index inside [mInputProximities]: a query that
    is not the typed code point nor has it as base form, but has the same
    base form as the typed code point, is NEAR_PROXIMITY_CHAR; no index is
    written and no other entry is read. *)
Theorem getMatchedProximityId_same_base (st : ProximityInfoState)
    (index c v : Z) (proximityIndex : option Z) (log : list Z) :
  0 < MAX_PROXIMITY_CHARS_SIZE ->
  length (mInputProximities st)
  = Z.to_nat (MAX_PROXIMITY_CHARS_SIZE * MAX_WORD_LENGTH) ->
  0 <= index < MAX_WORD_LENGTH ->
  getProximityCodePointsAt st index !! 0%nat = Some v ->
  v <> toBaseLowerCase c -> v <> c ->
  toBaseLowerCase v = toBaseLowerCase c ->
  getMatchedProximityId st index c true proximityIndex log
  = Some (NEAR_PROXIMITY_CHAR, proximityIndex, 0 :: log).
Proof.
  intros _ _ _ Hv Hb Hc Hbase. unfold getMatchedProximityId.
  unfold mbind at 1. unfold Scan_bind at 1.
  rewrite (read_Some _ 0 v log) by (lia || exact Hv).
  apply Z.eqb_neq in Hb, Hc. apply Z.eqb_eq in Hbase.
  rewrite Hb, Hc, Hbase. reflexivity.
Qed.

(** For an index inside [mInputProximities]: an index written through
    [proximityIndex] is the index of an entry of the slot, after the first
    and inside the slot, that is above DELIM and is the query or its base
    form; for ADDITIONAL_PROXIMITY_CHAR a DELIM entry lies before it. *)
Theorem getMatchedProximityId_index_sound (st : ProximityInfoState)
    (index c old v0 : Z) (checkProximityChars : bool) (log : list Z)
    (class : ProximityType) (out : option Z) (log' : list Z) :
  0 < MAX_PROXIMITY_CHARS_SIZE ->
  length (mInputProximities st)
  = Z.to_nat (MAX_PROXIMITY_CHARS_SIZE * MAX_WORD_LENGTH) ->
  0 <= index < MAX_WORD_LENGTH ->
  getMatchedProximityId st index c checkProximityChars (Some old) log
  = Some (class, out, log') ->
  getProximityCodePointsAt st index !! 0%nat = Some v0 ->
  class = ADDITIONAL_PROXIMITY_CHAR
  \/ (class = NEAR_PROXIMITY_CHAR /\ toBaseLowerCase v0 <> toBaseLowerCase c) ->
  exists j v,
    out = Some j /\ 1 <= j < MAX_PROXIMITY_CHARS_SIZE
    /\ getProximityCodePointsAt st index !! Z.to_nat j = Some v
    /\ ADDITIONAL_PROXIMITY_CHAR_DELIMITER_CODE < v
    /\ (v = toBaseLowerCase c \/ v = c)
    /\ (class = ADDITIONAL_PROXIMITY_CHAR ->
        exists d, 1 <= d < j
                  /\ getProximityCodePointsAt st index !! Z.to_nat d
                     = Some ADDITIONAL_PROXIMITY_CHAR_DELIMITER_CODE).
Proof.
  unfold getMatchedProximityId.
  set (p := getProximityCodePointsAt st index).
  intros _ _ _ Hrun Hv0 Hclass. revert Hrun.
  unfold mbind at 1. unfold Scan_bind at 1.
  rewrite (read_Some _ 0 v0 log) by (lia || exact Hv0).
  destruct ((v0 =? toBaseLowerCase c) || (v0 =? c)).
  { intros [= <- _ _]. destruct Hclass as [?|[? _]]; discriminate. }
  destruct checkProximityChars; cbn [negb].
  2: { intros [= <- _ _]. destruct Hclass as [?|[? _]]; discriminate. }
  destruct (Z.eqb_spec (toBaseLowerCase v0) (toBaseLowerCase c)) as [Hbase|Hbase].
  { intros [= <- _ _]. destruct Hclass as [?|[_ ?]]; [discriminate|contradiction]. }
  unfold mbind at 1. unfold Scan_bind at 1.
  destruct (scan_loop scan_fuel p c (toBaseLowerCase c) 1 (0 :: log))
    as [[[j|j] l1]|] eqn:Hscan1; [| |discriminate].
  { intros [= <- <- _].
    apply scan_loop_inl in Hscan1 as (Hj & v & Hv & Hd & Hm).
    exists j, v. repeat split; try assumption; try lia. discriminate. }
  apply scan_loop_inr in Hscan1.
  unfold mbind at 1. unfold Scan_bind at 1.
  destruct (Z.ltb_spec j MAX_PROXIMITY_CHARS_SIZE) as [Hj|Hj].
  2: { intros [= <- _ _]. destruct Hclass as [?|[? _]]; discriminate. }
  unfold mbind at 1. unfold Scan_bind at 1.
  destruct (read p j l1) as [[cj l2]|] eqn:R; [|discriminate].
  apply read_inv in R as (_ & Hcj & ->).
  unfold mret at 1. unfold Scan_ret at 1.
  destruct (Z.eqb_spec cj ADDITIONAL_PROXIMITY_CHAR_DELIMITER_CODE) as [Hdelim|Hdelim].
  2: { intros [= <- _ _]. destruct Hclass as [?|[? _]]; discriminate. }
  unfold mbind at 1. unfold Scan_bind at 1.
  destruct (scan_loop scan_fuel p c (toBaseLowerCase c) (j + 1) (j :: l1))
    as [[[j'|j'] l3]|] eqn:Hscan2; [| |discriminate].
  - intros [= <- <- _].
    apply scan_loop_inl in Hscan2 as (Hj' & v & Hv & Hd & Hm).
    exists j', v. repeat split; try assumption; try lia.
    intros _. exists j. subst cj. repeat split; try assumption; lia.
  - intros [= <- _ _]. destruct Hclass as [?|[? _]]; discriminate.
Qed.

Lemma first_match_above_delim (q : Z) (l : list Z) :
  forall (k : nat) (x : Z),
    (forall i y, (i <= k)%nat -> l !! i = Some y ->
                 ADDITIONAL_PROXIMITY_CHAR_DELIMITER_CODE < y) ->
    l !! k = Some x -> is_match q x = true ->
    is_Some (first_match q (above_delim l)).
Proof.
  induction l as [|y l IH]; intros k x Habove Hk Hx; [discriminate|].
  simpl.
  assert (Hy : ADDITIONAL_PROXIMITY_CHAR_DELIMITER_CODE < y)
    by (apply (Habove 0%nat); [lia|reflexivity]).
  apply Z.ltb_lt in Hy. rewrite Hy. simpl.
  destruct (is_match q y) eqn:Hmy; [eexists; reflexivity|].
  destruct k as [|k]; [simpl in Hk; congruence|].
  destruct (IH k x) as [n Hn]; try assumption.
  - intros i z Hi Hz. apply (Habove (S i)); [lia|exact Hz].
  - rewrite Hn. eexists. reflexivity.
Qed.

(** A query that occurs in the slot (itself or as base form) after the
    first entry, with only entries above DELIM up to it, is never
    UNRELATED_CHAR nor ADDITIONAL_PROXIMITY_CHAR when
    [checkProximityChars] is set. *)
Theorem getMatchedProximityId_primary_found (st : ProximityInfoState)
    (index c j x : Z) (proximityIndex : option Z) :
  0 < MAX_PROXIMITY_CHARS_SIZE ->
  length (mInputProximities st)
  = Z.to_nat (MAX_PROXIMITY_CHARS_SIZE * MAX_WORD_LENGTH) ->
  0 <= index < MAX_WORD_LENGTH ->
  1 <= j < MAX_PROXIMITY_CHARS_SIZE ->
  (forall i y, 1 <= i <= j ->
               getProximityCodePointsAt st index !! Z.to_nat i = Some y ->
               ADDITIONAL_PROXIMITY_CHAR_DELIMITER_CODE < y) ->
  getProximityCodePointsAt st index !! Z.to_nat j = Some x ->
  x = toBaseLowerCase c \/ x = c ->
  exists class out log,
    getMatchedProximityId st index c true proximityIndex [] = Some (class, out, log)
    /\ (class = EQUIVALENT_CHAR \/ class = NEAR_PROXIMITY_CHAR).
Proof.
  intros Hmax Harr Hindex Hj Habove Hx Hmatch.
  unfold getMatchedProximityId.
  set (p := getProximityCodePointsAt st index) in *.
  set (N := Z.to_nat MAX_PROXIMITY_CHARS_SIZE).
  assert (Hlen : (N <= length p)%nat).
  { unfold p, getProximityCodePointsAt. rewrite length_drop, Harr. unfold N. nia. }
  destruct (lookup_lt_is_Some_2 p (Z.to_nat 0)) as [c0 Hc0]; [simpl; lia|].
  unfold mbind at 1. unfold Scan_bind at 1.
  rewrite (read_Some p 0 c0 []) by (lia || done).
  destruct ((c0 =? toBaseLowerCase c) || (c0 =? c)).
  { do 3 eexists. split; [reflexivity|]. left. reflexivity. }
  cbn [negb].
  destruct (toBaseLowerCase c0 =? toBaseLowerCase c).
  { do 3 eexists. split; [reflexivity|]. right. reflexivity. }
  assert (H0 : in_slot 0) by (unfold in_slot; lia).
  destruct (scan_loop_spec p c Hlen scan_fuel 1 [0]) as (log1 & Hscan1 & _);
    [lia|unfold scan_fuel; lia|log_ok|].
  unfold mbind at 1. unfold Scan_bind at 1. rewrite Hscan1.
  unfold scan_result.
  set (rest := drop (Z.to_nat 1) (take (Z.to_nat MAX_PROXIMITY_CHARS_SIZE) p)).
  assert (Hrest : forall i, rest !! i = take N p !! (1 + i)%nat).
  { intros i. unfold rest. rewrite lookup_drop. reflexivity. }
  destruct (first_match_above_delim c rest (Z.to_nat j - 1) x) as [k Hk].
  - intros i y Hi Hy. rewrite Hrest in Hy.
    apply lookup_take_Some in Hy as [Hy _].
    apply (Habove (Z.of_nat (1 + i))); [lia|].
    rewrite Nat2Z.id. exact Hy.
  - rewrite Hrest. replace (1 + (Z.to_nat j - 1))%nat with (Z.to_nat j) by lia.
    rewrite lookup_take_lt by (unfold N; lia). exact Hx.
  - unfold is_match. destruct Hmatch as [->| ->];
      rewrite Z.eqb_refl; [apply orb_true_r|reflexivity].
  - rewrite Hk. do 3 eexists. split; [reflexivity|]. right. reflexivity.
Qed.

End ClassificationMore.

(** ** Multiplication by one is exact *)

Lemma min_le_cap (a c : spec_float) :
  Float32.is_nan c = false -> SFleb (min a c) c = true.
Proof.
  intros Hc. unfold min, Float32.ltb. destruct (SFltb a c) eqn:Ha.
  - apply SFltb_leb, Ha.
  - apply SFleb_refl, Hc.
Qed.

Lemma digits2_unique (x a b : Z) :
  2 ^ (a - 1) <= x < 2 ^ a -> 2 ^ (b - 1) <= x < 2 ^ b -> 0 < a -> 0 < b -> a = b.
Proof.
  intros [Ha1 Ha2] [Hb1 Hb2] Ha Hb.
  assert (a - 1 < b) by (apply (Z.pow_lt_mono_r_iff 2); lia).
  assert (b - 1 < a) by (apply (Z.pow_lt_mono_r_iff 2); lia).
  lia.
Qed.

Lemma digits2_mul_pow2 (m : positive) (k : Z) :
  0 <= k ->
  Zpos (digits2_pos (m * Z.to_pos (2 ^ k))) = Zpos (digits2_pos m) + k.
Proof.
  intros Hk.
  assert (Hpos : 0 < 2 ^ k) by (apply Z.pow_pos_nonneg; lia).
  pose proof (digits2_bounds m) as [Hlo Hhi].
  pose proof (digits2_bounds (m * Z.to_pos (2 ^ k))) as Hb.
  rewrite Pos2Z.inj_mul, Z2Pos.id in Hb by lia.
  assert (Hm : 2 ^ (Zpos (digits2_pos m) + k - 1) <= Zpos m * 2 ^ k
               < 2 ^ (Zpos (digits2_pos m) + k)).
  { replace (Zpos (digits2_pos m) + k - 1) with (Zpos (digits2_pos m) - 1 + k) by lia.
    rewrite !Z.pow_add_r by lia. split.
    - apply Z.mul_le_mono_nonneg_r; lia.
    - apply Z.mul_lt_mono_pos_r; lia. }
  apply (digits2_unique (Zpos m * 2 ^ k) _ _ Hb Hm); lia.
Qed.

Section RoundingOne.
Variables prec emax : Z.
Hypothesis Hprec : 0 < prec.

(** The product of a binary floating-point number with one is the number
    itself: nothing is rounded away. *)
Lemma SFmul_one_r (x : spec_float) :
  valid_binary prec emax x = true ->
  SFmul prec emax x (S754_finite false (Z.to_pos (2 ^ (prec - 1))) (1 - prec)) = x.
Proof.
  intros Vx. destruct x as [s|s| |s m e]; cbn [SFmul]; rewrite ?xorb_false_r;
    try reflexivity.
  cbn [valid_binary] in Vx.
  pose proof (bounded_canonical prec emax m e Vx) as Hcan.
  unfold bounded in Vx. apply andb_true_iff in Vx as [_ Hbound].
  apply Z.leb_le in Hbound.
  set (M := (m * Z.to_pos (2 ^ (prec - 1)))%positive).
  set (E := e + (1 - prec)).
  assert (Hexp : round_exp prec emax M E = e).
  { unfold round_exp, M, E. rewrite digits2_mul_pow2 by lia.
    replace (Zpos (digits2_pos m) + (prec - 1) + (e + (1 - prec)))
      with (Zpos (digits2_pos m) + e) by lia.
    exact Hcan. }
  assert (HE : E <= round_exp prec emax M E) by (rewrite Hexp; unfold E; lia).
  destruct (binary_round_aux_exact prec emax Hprec s M E HE) as (mrs & Hs & Hr).
  rewrite Hr, Hexp in *.
  replace (e - E) with (prec - 1) in Hs by (unfold E; lia).
  destruct Hs as (_ & Hm & t & Ht & HM & Hsticky).
  assert (Hpow : 0 < 2 ^ (prec - 1)) by (apply Z.pow_pos_nonneg; lia).
  unfold M in HM. rewrite Pos2Z.inj_mul, Z2Pos.id in HM by lia.
  replace (prec - 1 + 1) with (1 + (prec - 1)) in HM by lia.
  rewrite Z.pow_add_r in HM by lia. change (2 ^ 1) with 2 in HM.
  assert (Hb : b2z (shr_r mrs) = 0 \/ b2z (shr_r mrs) = 1)
    by (destruct (shr_r mrs); simpl; lia).
  assert (Hq : 2 * Zpos m = 2 * shr_m mrs + b2z (shr_r mrs)) by nia.
  assert (Hrne : rne mrs = Zpos m).
  { rewrite rne_cases. destruct (shr_r mrs); simpl in *; lia. }
  rewrite Hrne. unfold finalize.
  assert (Hlt : Zpos m < 2 ^ prec).
  { pose proof (digits2_bounds m) as [_ Hhi].
    assert (2 ^ Zpos (digits2_pos m) <= 2 ^ prec).
    { apply Z.pow_le_mono_r; [lia|].
      unfold round_exp, SpecFloat.fexp in Hcan. lia. }
    lia. }
  apply Z.ltb_lt in Hlt. apply Z.leb_le in Hbound.
  rewrite Hlt, Hbound. reflexivity.
Qed.

End RoundingOne.

Lemma mul_float_one (x : float) :
  Float32.valid x = true -> Float32.mul x float_one = x.
Proof.
  intros Vx. apply (SFmul_one_r Float32.prec Float32.emax); (reflexivity || exact Vx).
Qed.

(** ** More on [initInputParams] and the queries *)

Section StateMore.
Context `{D : Defines} `{CU : CharUtils} `{U : ProximityInfoStateUtils}.

(** What [initInputParams] installs from its arguments. *)
Lemma initInputParams_installs st pointerId maxPointToKeyLength proximityInfo
    inputCodes inputSize xCoordinates yCoordinates times pointerIds isGeometric st' :
  initInputParams st pointerId maxPointToKeyLength proximityInfo inputCodes inputSize
    xCoordinates yCoordinates times pointerIds isGeometric = Some st' ->
  mProximityInfo st' = Some proximityInfo
  /\ mMaxPointToKeyLength st' = maxPointToKeyLength.
Proof.
  unfold initInputParams.
  destruct (initInputParams_precondition isGeometric inputSize);
    cbn [mbind option_bind ASSERT]; [|discriminate].
  name_helper_results. intros [= <-]. split; reflexivity.
Qed.

(** For a code point that has a key, [getPointToKeyLength] never exceeds
    the cap [mMaxPointToKeyLength], whatever the cached distance and the
    scale, as long as the cap is a number. *)
Theorem getPointToKeyLength_capped (st : ProximityInfoState)
    (proximityInfo : ProximityInfo) (inputIndex codePoint : Z) (scale r : float) :
  mProximityInfo st = Some proximityInfo ->
  getKeyIndexOf proximityInfo codePoint <> NOT_AN_INDEX ->
  Float32.is_nan (mMaxPointToKeyLength st) = false ->
  getPointToKeyLength st inputIndex codePoint scale = Some r ->
  Float32.leb r (mMaxPointToKeyLength st) = true.
Proof.
  intros Hpi Hkey Hcap. unfold getPointToKeyLength. rewrite Hpi.
  cbn [mbind option_bind]. apply Z.eqb_neq in Hkey. rewrite Hkey. cbn [negb].
  destruct (at_index (mSampledDistanceCache_G st) _) as [d|]; [|discriminate].
  cbn [mbind option_bind]. intros [= <-]. apply min_le_cap, Hcap.
Qed.

(** [getPointToKeyLength_G] returns the cached distance itself, capped:
    the multiplication by [1.0f] is exact. *)
Theorem getPointToKeyLength_G_exact (st : ProximityInfoState)
    (proximityInfo : ProximityInfo) (inputIndex codePoint : Z) (d : float) :
  mProximityInfo st = Some proximityInfo ->
  let keyCount := getKeyCount proximityInfo in
  let k := getKeyIndexOf proximityInfo codePoint in
  k <> NOT_AN_INDEX ->
  0 <= inputIndex -> 0 <= keyCount -> 0 <= k ->
  inputIndex * keyCount + k <= Int32.max_signed ->
  Dist2 st keyCount inputIndex k = Some d ->
  Float32.valid d = true ->
  getPointToKeyLength_G st inputIndex codePoint
  = Some (min d (mMaxPointToKeyLength st)).
Proof.
  intros Hpi keyCount k Hk Hi Hc Hk0 Hmax Hd Vd.
  unfold getPointToKeyLength_G, getPointToKeyLength. rewrite Hpi.
  cbn [mbind option_bind]. fold k. fold keyCount.
  apply Z.eqb_neq in Hk. rewrite Hk. cbn [negb].
  unfold Int32.add, Int32.mul.
  assert (0 <= inputIndex * keyCount) by nia.
  rewrite (wrap_in_range (inputIndex * keyCount))
    by (unfold Int32.in_range, Int32.min_signed in *; lia).
  rewrite wrap_in_range by (unfold Int32.in_range, Int32.min_signed in *; lia).
  unfold Dist2 in Hd. rewrite Hd. cbn [mbind option_bind].
  rewrite mul_float_one by exact Vd. reflexivity.
Qed.

(** After [initInputParams], the lengths are capped by the
    [maxPointToKeyLength] of that call and the code points are looked up in
    the layout of that call, whatever the state was before: a code point
    with a key gets a length that does not exceed the cap, a code point
    without a key gets [0.0f] if it is skippable and
    [MAX_POINT_TO_KEY_LENGTH] if it is not. *)
Theorem getPointToKeyLength_after_init st pointerId maxPointToKeyLength proximityInfo
    inputCodes inputSize xCoordinates yCoordinates times pointerIds isGeometric st'
    (inputIndex codePoint : Z) (scale : float) :
  initInputParams st pointerId maxPointToKeyLength proximityInfo inputCodes inputSize
    xCoordinates yCoordinates times pointerIds isGeometric = Some st' ->
  Float32.is_nan maxPointToKeyLength = false ->
  (getKeyIndexOf proximityInfo codePoint <> NOT_AN_INDEX ->
   forall r, getPointToKeyLength st' inputIndex codePoint scale = Some r ->
             Float32.leb r maxPointToKeyLength = true)
  /\ (getKeyIndexOf proximityInfo codePoint = NOT_AN_INDEX ->
      getPointToKeyLength st' inputIndex codePoint scale
      = Some (if isSkippableCodePoint codePoint then Float32.zero
              else Float32.of_int MAX_POINT_TO_KEY_LENGTH)).
Proof.
  intros Hinit Hcap.
  destruct (initInputParams_installs _ _ _ _ _ _ _ _ _ _ _ _ Hinit) as [Hpi Hmax].
  unfold getPointToKeyLength. rewrite Hpi, Hmax. cbn [mbind option_bind].
  split.
  - intros Hkey r. apply Z.eqb_neq in Hkey. rewrite Hkey. cbn [negb].
    destruct (at_index (mSampledDistanceCache_G st') _) as [d|]; [|discriminate].
    cbn [mbind option_bind]. intros [= <-]. apply min_le_cap, Hcap.
  - intros Hkey. apply Z.eqb_eq in Hkey. rewrite Hkey. cbn [negb].
    destruct (isSkippableCodePoint codePoint); reflexivity.
Qed.

(** Without both coordinate arrays [initInputParams] takes no samples:
    the sampled size and the probability of the most probable string are
    zero, touch position correction is off, and the string buffer and the
    average speed are left as they were. *)
Theorem initInputParams_without_coordinates st pointerId maxPointToKeyLength
    proximityInfo inputCodes inputSize xCoordinates yCoordinates times pointerIds
    isGeometric st' :
  initInputParams st pointerId maxPointToKeyLength proximityInfo inputCodes inputSize
    xCoordinates yCoordinates times pointerIds isGeometric = Some st' ->
  xCoordinates = None \/ yCoordinates = None ->
  mSampledInputSize st' = 0
  /\ mMostProbableStringProbability st' = Float32.zero
  /\ mTouchPositionCorrectionEnabled st' = false
  /\ mMostProbableString st' = mMostProbableString st
  /\ mAverageSpeed st' = mAverageSpeed st.
Proof.
  intros Hinit Hnull. revert Hinit. unfold initInputParams.
  destruct (initInputParams_precondition isGeometric inputSize);
    cbn [mbind option_bind ASSERT]; [|discriminate].
  match goal with
  | |- context [let '(_, _) := ?e in _] => destruct e as [start kept]
  end.
  assert (Hnone : match xCoordinates, yCoordinates with
                  | Some _, Some _ => False
                  | _, _ => True
                  end).
  { destruct Hnull as [-> | ->]; [exact I|]. destruct xCoordinates; exact I. }
  destruct xCoordinates, yCoordinates; try contradiction;
    cbn [Z.ltb Z.compare andb];
    intros [= <-]; repeat split; reflexivity.
Qed.

(** The string buffer, the probability maps and the search key sets are
    only computed by a geometric run.  After a tap-mode run that does not
    continue the previous input, the per-sample vectors of the geometric
    mode are empty and the probability is zero; [getProbability] and
    [isKeyInSerchKeysAfterIndex] then read outside their vector at every
    index, also at the indices below the sampled size. *)
Theorem tap_run_leaves_no_geometric_data st pointerId maxPointToKeyLength
    proximityInfo inputCodes inputSize xCoordinates yCoordinates times pointerIds st'
    (MAX_KEY_COUNT_IN_A_KEYBOARD : Z) :
  initInputParams st pointerId maxPointToKeyLength proximityInfo inputCodes inputSize
    xCoordinates yCoordinates times pointerIds false = Some st' ->
  continues st st' = false ->
  mCharProbabilities st' = [] /\ mSampledSearchKeySets st' = []
  /\ mSpeedRates st' = [] /\ mDirections st' = []
  /\ mBeelineSpeedPercentiles st' = []
  /\ mMostProbableStringProbability st' = Float32.zero
  /\ mMostProbableString st' = mMostProbableString st
  /\ (forall index keyIndex, getProbability st' index keyIndex = None)
  /\ (forall index keyId,
         isKeyInSerchKeysAfterIndex MAX_KEY_COUNT_IN_A_KEYBOARD st' index keyId = None).
Proof.
  intros Hinit. unfold continues.
  rewrite (initInputParams_flag _ _ _ _ _ _ _ _ _ _ _ _ Hinit).
  revert Hinit. unfold initInputParams.
  destruct (initInputParams_precondition false inputSize);
    cbn [mbind option_bind ASSERT]; [|discriminate].
  intros Hinit Hc. revert Hinit. rewrite Hc.
  match goal with
  | |- context [let '(_, _) := ?e in _] => destruct e as [M sampled]
  end.
  rewrite !andb_false_r.
  name_helper_results. intros [= <-].
  unfold getProbability, isKeyInSerchKeysAfterIndex, at_index.
  cbn [mCharProbabilities mSampledSearchKeySets mSpeedRates mDirections
       mBeelineSpeedPercentiles mMostProbableStringProbability mMostProbableString
       mSampledInputSize].
  repeat split.
  - intros index keyIndex. destruct (ASSERT _); [|reflexivity].
    cbn [mbind option_bind]. destruct (index <? 0); reflexivity.
  - intros index keyId. destruct (ASSERT _); [|reflexivity].
    cbn [mbind option_bind]. destruct (index <? 0); reflexivity.
Qed.

(** [initInputParams] never clears [mSampledSearchKeyVectors]: unless the
    run is geometric and has samples, the vector is left as it was, also
    when the run clears the search key sets it goes with. *)
Theorem search_key_vectors_not_cleared st pointerId maxPointToKeyLength
    proximityInfo inputCodes inputSize xCoordinates yCoordinates times pointerIds
    isGeometric st' :
  initInputParams st pointerId maxPointToKeyLength proximityInfo inputCodes inputSize
    xCoordinates yCoordinates times pointerIds isGeometric = Some st' ->
  isGeometric = false \/ mSampledInputSize st' <= 0 ->
  mSampledSearchKeyVectors st' = mSampledSearchKeyVectors st
  /\ (continues st st' = false -> mSampledSearchKeySets st' = []).
Proof.
  intros Hinit. unfold continues.
  rewrite (initInputParams_flag _ _ _ _ _ _ _ _ _ _ _ _ Hinit).
  revert Hinit. unfold initInputParams.
  destruct (initInputParams_precondition isGeometric inputSize);
    cbn [mbind option_bind ASSERT]; [|discriminate].
  set (c := checkAndReturnIsContinuationPossible _ _ _ _ _ _ _ _ _ && _).
  match goal with
  | |- context [let '(_, _) := ?e in _] => destruct e as [start kept]
  end.
  match goal with
  | |- context [let '(_, _) := ?e in _] => destruct e as [M sampled]
  end.
  destruct (Z.ltb_spec 0 M) as [HM|HM], isGeometric; cbn [andb];
    name_helper_results; intros [= <-]; cbn [mSampledInputSize
      mSampledSearchKeyVectors mSampledSearchKeySets];
    intros Hcase; try (destruct Hcase; [discriminate|lia]);
    (split; [reflexivity|intros ->; reflexivity]).
Qed.

(** A geometric run, and a run for a pointer other than pointer 0, leave
    no proximity lists: [mInputProximities] is all zeros.  Such a run does
    not touch [mPrimaryInputWord] and [mNormalizedSquaredDistances]. *)
Theorem proximities_only_for_taps_of_pointer_0 st pointerId maxPointToKeyLength
    proximityInfo inputCodes inputSize xCoordinates yCoordinates times pointerIds
    isGeometric st' :
  initInputParams st pointerId maxPointToKeyLength proximityInfo inputCodes inputSize
    xCoordinates yCoordinates times pointerIds isGeometric = Some st' ->
  isGeometric = true \/ pointerId <> 0 ->
  mInputProximities st'
  = replicate (Z.to_nat (MAX_PROXIMITY_CHARS_SIZE * MAX_WORD_LENGTH)) 0
  /\ mPrimaryInputWord st' = mPrimaryInputWord st
  /\ mNormalizedSquaredDistances st' = mNormalizedSquaredDistances st.
Proof.
  intros Hinit Hcase.
  assert (Htap : negb isGeometric && (pointerId =? 0) = false).
  { destruct Hcase as [-> |Hp]; [reflexivity|].
    apply Z.eqb_neq in Hp. rewrite Hp. apply andb_false_r. }
  revert Hinit. unfold initInputParams.
  destruct (initInputParams_precondition isGeometric inputSize);
    cbn [mbind option_bind ASSERT]; [|discriminate].
  rewrite Htap. cbn [andb].
  name_helper_results. intros [= <-]. repeat split; reflexivity.
Qed.

(** A state with fewer than two samples is never continued, whatever the
    continuation check answers: the sampled arrays are those that
    [updateTouchPoints] builds from none, starting at raw point 0, and they
    are empty without coordinates. *)
Theorem fewer_than_two_samples_restart st pointerId maxPointToKeyLength proximityInfo
    inputCodes inputSize xCoordinates yCoordinates times pointerIds isGeometric st' :
  initInputParams st pointerId maxPointToKeyLength proximityInfo inputCodes inputSize
    xCoordinates yCoordinates times pointerIds isGeometric = Some st' ->
  (length (mSampledInputIndice st) <= 1)%nat ->
  continues st st' = false
  /\ sampled_of st'
     = match xCoordinates, yCoordinates with
       | Some xs, Some ys =>
         (updateTouchPoints proximityInfo maxPointToKeyLength (mInputProximities st')
            xs ys times pointerIds inputSize isGeometric pointerId 0 no_samples).2
       | _, _ => no_samples
       end.
Proof.
  intros Hinit Hlen.
  assert (Hc : continues st st' = false).
  { unfold continues. destruct (Z.ltb_spec 1 (Z.of_nat (length (mSampledInputIndice st))));
      [lia|apply andb_false_r]. }
  split; [exact Hc|].
  pose proof (initInputParams_sampled _ _ _ _ _ _ _ _ _ _ _ _ Hinit) as Hs.
  cbv zeta in Hs. unfold continues in Hc. rewrite Hc in Hs. exact Hs.
Qed.

(** Inside the sampled range, on vectors that hold the samples, and with a
    layout, [getLineToKeyDistance] reads no vector out of its bounds: it
    is the squared distance from the centre of the key to the segment
    between the two samples.  The key id is handed to the layout as it
    is. *)
Theorem getLineToKeyDistance_in_range (st : ProximityInfoState)
    (proximityInfo : ProximityInfo) (from to keyId : Z) (extend : bool) :
  mProximityInfo st = Some proximityInfo ->
  mSampledInputSize st <= Int32.max_signed ->
  mSampledInputSize st <= Z.of_nat (length (mSampledInputXs st)) ->
  mSampledInputSize st <= Z.of_nat (length (mSampledInputYs st)) ->
  0 <= from < mSampledInputSize st ->
  0 <= to < mSampledInputSize st ->
  exists x0 y0 x1 y1,
    mSampledInputXs st !! Z.to_nat from = Some x0
    /\ mSampledInputYs st !! Z.to_nat from = Some y0
    /\ mSampledInputXs st !! Z.to_nat to = Some x1
    /\ mSampledInputYs st !! Z.to_nat to = Some y1
    /\ getLineToKeyDistance st from to keyId extend
       = Some (pointToLineSegSquaredDistanceFloat
                 (getKeyCenterXOfKeyIdG proximityInfo keyId)
                 (getKeyCenterYOfKeyIdG proximityInfo keyId) x0 y0 x1 y1 extend).
Proof.
  intros Hpi Hmax Hxs Hys Hfrom Hto.
  destruct (lookup_lt_is_Some_2 (mSampledInputXs st) (Z.to_nat from)) as [x0 Hx0]; [lia|].
  destruct (lookup_lt_is_Some_2 (mSampledInputYs st) (Z.to_nat from)) as [y0 Hy0]; [lia|].
  destruct (lookup_lt_is_Some_2 (mSampledInputXs st) (Z.to_nat to)) as [x1 Hx1]; [lia|].
  destruct (lookup_lt_is_Some_2 (mSampledInputYs st) (Z.to_nat to)) as [y1 Hy1]; [lia|].
  exists x0, y0, x1, y1. repeat (split; [assumption|]).
  unfold getLineToKeyDistance, Int32.sub, at_index.
  rewrite wrap_in_range
    by (unfold Int32.in_range, Int32.min_signed, Int32.max_signed in *; lia).
  destruct (Z.ltb_spec from 0); [lia|].
  destruct (Z.ltb_spec (mSampledInputSize st - 1) from); [lia|].
  destruct (Z.ltb_spec to 0); [lia|].
  destruct (Z.ltb_spec (mSampledInputSize st - 1) to); [lia|].
  cbn [orb]. rewrite Hx0, Hy0, Hx1, Hy1, Hpi. reflexivity.
Qed.

(** In a state without samples the three queries that assert their index
    reject every index, and [getLineToKeyDistance] is [0.0f] for all
    arguments. *)
Theorem queries_without_samples (st : ProximityInfoState)
    (MAX_KEY_COUNT_IN_A_KEYBOARD : Z) :
  mSampledInputSize st = 0 ->
  forall index key from to extend,
    getProbability st index key = None
    /\ isKeyInSerchKeysAfterIndex MAX_KEY_COUNT_IN_A_KEYBOARD st index key = None
    /\ hasSpaceProximity st index = None
    /\ getLineToKeyDistance st from to key extend = Some Float32.zero.
Proof.
  intros HM index key from to extend.
  unfold getProbability, isKeyInSerchKeysAfterIndex, hasSpaceProximity,
    getLineToKeyDistance.
  rewrite HM.
  assert (Hidx : (0 <=? index) && (index <? 0) = false).
  { destruct (Z.leb_spec 0 index), (Z.ltb_spec index 0); try reflexivity. lia. }
  rewrite <- andb_assoc, Hidx, andb_false_r. cbn [ASSERT mbind option_bind].
  repeat split.
  change (Int32.sub 0 1) with (-1).
  destruct (Z.ltb_spec from 0); [reflexivity|].
  destruct (Z.ltb_spec (-1) from); [reflexivity|lia].
Qed.

(** Unless the run is geometric and has samples, [getMostProbableString]
    afterwards returns the probability [0.0f] together with the string
    that was in the buffer before the call: the buffer is not reset. *)
Theorem getMostProbableString_stale st pointerId maxPointToKeyLength proximityInfo
    inputCodes inputSize xCoordinates yCoordinates times pointerIds isGeometric st' :
  initInputParams st pointerId maxPointToKeyLength proximityInfo inputCodes inputSize
    xCoordinates yCoordinates times pointerIds isGeometric = Some st' ->
  isGeometric = false \/ mSampledInputSize st' <= 0 ->
  getMostProbableString st' = (Float32.zero, mMostProbableString st).
Proof.
  unfold initInputParams, getMostProbableString.
  destruct (initInputParams_precondition isGeometric inputSize);
    cbn [mbind option_bind ASSERT]; [|discriminate].
  match goal with
  | |- context [let '(_, _) := ?e in _] => destruct e as [start kept]
  end.
  match goal with
  | |- context [let '(_, _) := ?e in _] => destruct e as [M sampled]
  end.
  destruct (Z.ltb_spec 0 M) as [HM|HM], isGeometric; cbn [andb];
    name_helper_results; intros [= <-];
    cbn [mSampledInputSize mMostProbableStringProbability mMostProbableString];
    intros Hcase; try (destruct Hcase; [discriminate|lia]); reflexivity.
Qed.

(** [isKeyInSerchKeysAfterIndex] answers only for a key id inside the
    bitset and an index that is inside the sampled range and has a search
    key set; the answer is the bit of the key in that set. *)
Theorem isKeyInSerchKeysAfterIndex_bounds (MAX_KEY_COUNT_IN_A_KEYBOARD : Z)
    (st : ProximityInfoState) (index keyId : Z) (b : bool) :
  isKeyInSerchKeysAfterIndex MAX_KEY_COUNT_IN_A_KEYBOARD st index keyId = Some b ->
  0 <= keyId < MAX_KEY_COUNT_IN_A_KEYBOARD
  /\ 0 <= index < mSampledInputSize st
  /\ exists searchKeys,
       mSampledSearchKeySets st !! Z.to_nat index = Some searchKeys
       /\ (b = true <-> keyId ∈ searchKeys).
Proof.
  unfold isKeyInSerchKeysAfterIndex, bitset_test, at_index.
  destruct (Z.leb_spec 0 keyId) as [Hk|Hk]; cbn [andb ASSERT mbind option_bind];
    [|discriminate].
  destruct (Z.leb_spec 0 index) as [Hi|Hi]; cbn [andb ASSERT mbind option_bind];
    [|discriminate].
  destruct (Z.ltb_spec index (mSampledInputSize st)) as [HM|HM];
    cbn [ASSERT mbind option_bind]; [|discriminate].
  destruct (Z.ltb_spec index 0); [lia|].
  destruct (mSampledSearchKeySets st !! Z.to_nat index) as [searchKeys|];
    cbn [mbind option_bind]; [|discriminate].
  destruct (Z.ltb_spec keyId MAX_KEY_COUNT_IN_A_KEYBOARD) as [Hmax|Hmax];
    [|discriminate].
  intros [= <-]. repeat split; try lia.
  exists searchKeys. split; [reflexivity|].
  rewrite bool_decide_eq_true. reflexivity.
Qed.

End StateMore.

(** ** These properties on the sample keyboard *)

Section SampleMore.
#[local] Existing Instances Sample.defines Sample.chars Sample.utils.

(** Without [checkProximityChars] a neighbour of the typed [a] is
    UNRELATED_CHAR, and the index passed in stays as it was. *)
Lemma getMatchedProximityId_without_check_witness :
  getMatchedProximityId Sample.tap_a 0 115 false (Some 7) []
  = Some (UNRELATED_CHAR, Some 7, [0]).
Proof.
  pose proof (getMatchedProximityId_without_check Sample.tap_a 0 115 97 (Some 7) [])
    as Hrun.
  rewrite Hrun;
    [reflexivity|reflexivity|vm_compute; reflexivity
    |vm_compute; split; [discriminate|reflexivity]|vm_compute; reflexivity].
Defined.

(** The capital [A] against the typed [a]. *)
Lemma getMatchedProximityId_equivalent_iff_witness :
  exists v,
    getProximityCodePointsAt Sample.tap_a 0 !! 0%nat = Some v
    /\ (EQUIVALENT_CHAR = EQUIVALENT_CHAR <-> v = toBaseLowerCase 65 \/ v = 65)
    /\ (EQUIVALENT_CHAR = EQUIVALENT_CHAR -> Some 7 = Some 7 /\ [0] = 0 :: []).
Proof.
  apply (getMatchedProximityId_equivalent_iff Sample.tap_a 0 65 true (Some 7) []
           EQUIVALENT_CHAR (Some 7) [0]).
  - reflexivity.
  - vm_compute. reflexivity.
  - vm_compute. split; [discriminate|reflexivity].
  - vm_compute. reflexivity.
Defined.

(** The query [a] against the typed U+00E1. *)
Lemma getMatchedProximityId_same_base_witness :
  getMatchedProximityId Sample.tap_a_acute 0 97 true (Some 7) []
  = Some (NEAR_PROXIMITY_CHAR, Some 7, [0]).
Proof.
  apply (getMatchedProximityId_same_base Sample.tap_a_acute 0 97 225 (Some 7) []).
  - reflexivity.
  - vm_compute. reflexivity.
  - vm_compute. split; [discriminate|reflexivity].
  - vm_compute. reflexivity.
  - vm_compute. discriminate.
  - vm_compute. discriminate.
  - vm_compute. reflexivity.
Defined.

(** The query [z] of the additional list of the typed [a]: index 4, after
    the delimiter at index 3. *)
Lemma getMatchedProximityId_index_sound_witness :
  exists j v,
    Some 4 = Some j /\ 1 <= j < MAX_PROXIMITY_CHARS_SIZE
    /\ getProximityCodePointsAt Sample.tap_a 0 !! Z.to_nat j = Some v
    /\ ADDITIONAL_PROXIMITY_CHAR_DELIMITER_CODE < v
    /\ (v = toBaseLowerCase 122 \/ v = 122)
    /\ (ADDITIONAL_PROXIMITY_CHAR = ADDITIONAL_PROXIMITY_CHAR ->
        exists d, 1 <= d < j
                  /\ getProximityCodePointsAt Sample.tap_a 0 !! Z.to_nat d
                     = Some ADDITIONAL_PROXIMITY_CHAR_DELIMITER_CODE).
Proof.
  apply (getMatchedProximityId_index_sound Sample.tap_a 0 122 0 97 true []
           ADDITIONAL_PROXIMITY_CHAR (Some 4) [4; 4; 3; 3; 2; 2; 2; 1; 1; 1; 0]).
  - reflexivity.
  - vm_compute. reflexivity.
  - vm_compute. split; [discriminate|reflexivity].
  - vm_compute. reflexivity.
  - vm_compute. reflexivity.
  - left. reflexivity.
Defined.

(** The neighbour [q] of the typed [a], at index 2 of the slot. *)
Lemma getMatchedProximityId_primary_found_witness :
  exists class out log,
    getMatchedProximityId Sample.tap_a 0 113 true (Some 0) [] = Some (class, out, log)
    /\ (class = EQUIVALENT_CHAR \/ class = NEAR_PROXIMITY_CHAR).
Proof.
  apply (getMatchedProximityId_primary_found Sample.tap_a 0 113 2 113 (Some 0)).
  - reflexivity.
  - vm_compute. reflexivity.
  - vm_compute. split; [discriminate|reflexivity].
  - vm_compute. split; [discriminate|reflexivity].
  - intros i y Hi. assert (Hcases : i = 1 \/ i = 2) by lia.
    destruct Hcases as [-> | ->]; vm_compute; intros [= <-]; reflexivity.
  - vm_compute. reflexivity.
  - right. reflexivity.
Defined.

(** The tap on [a] at squared distance 4 and the scale 1000: the product
    4000 is cut to the cap 1000. *)
Lemma getPointToKeyLength_capped_witness :
  getPointToKeyLength Sample.tap_a 0 97 (Float32.of_int 1000) = Some Sample.maxLength
  /\ Float32.leb Sample.maxLength (mMaxPointToKeyLength Sample.tap_a) = true.
Proof.
  split; [vm_compute; reflexivity|].
  apply (getPointToKeyLength_capped Sample.tap_a Sample.layout 0 97
           (Float32.of_int 1000) Sample.maxLength).
  - vm_compute. reflexivity.
  - vm_compute. discriminate.
  - vm_compute. reflexivity.
  - vm_compute. reflexivity.
Defined.

Lemma getPointToKeyLength_G_exact_witness :
  getPointToKeyLength_G Sample.tap_a 0 97
  = Some (min (Float32.of_int 4) (mMaxPointToKeyLength Sample.tap_a)).
Proof.
  pose proof (getPointToKeyLength_G_exact Sample.tap_a Sample.layout 0 97
                (Float32.of_int 4)) as Hexact.
  cbv zeta in Hexact.
  apply Hexact; vm_compute; (discriminate || reflexivity).
Defined.

(** The tap on [a] from a fresh state: the key [a], and [x] that has no
    key. *)
Lemma getPointToKeyLength_after_init_witness :
  Float32.leb (Float32.of_int 4) Sample.maxLength = true
  /\ getPointToKeyLength Sample.tap_a 0 120 Sample.one = Some (Float32.of_int 10000000).
Proof.
  destruct (getPointToKeyLength_after_init fresh 0 Sample.maxLength Sample.layout
              (Some [97]) 1 (Some [102]) (Some [200]) (Some [0]) (Some [0]) false
              Sample.tap_a 0 97 Sample.one) as [Hkey _];
    [vm_compute; reflexivity|vm_compute; reflexivity|].
  destruct (getPointToKeyLength_after_init fresh 0 Sample.maxLength Sample.layout
              (Some [97]) 1 (Some [102]) (Some [200]) (Some [0]) (Some [0]) false
              Sample.tap_a 0 120 Sample.one) as [_ Hnone];
    [vm_compute; reflexivity|vm_compute; reflexivity|].
  split.
  - apply Hkey; [vm_compute; discriminate|vm_compute; reflexivity].
  - rewrite Hnone by (vm_compute; reflexivity). vm_compute. reflexivity.
Defined.

(** After the swipe, a call without coordinates: no samples, and the
    string of the swipe is still in the buffer. *)
Lemma initInputParams_without_coordinates_witness :
  mSampledInputSize Sample.swipe3_then_nothing = 0
  /\ mMostProbableStringProbability Sample.swipe3_then_nothing = Float32.zero
  /\ mTouchPositionCorrectionEnabled Sample.swipe3_then_nothing = false
  /\ mMostProbableString Sample.swipe3_then_nothing = mMostProbableString Sample.swipe3
  /\ mAverageSpeed Sample.swipe3_then_nothing = mAverageSpeed Sample.swipe3.
Proof.
  apply (initInputParams_without_coordinates Sample.swipe3 0 Sample.maxLength
           Sample.layout (Some [97]) 1 None None None None false
           Sample.swipe3_then_nothing).
  - vm_compute. reflexivity.
  - left. reflexivity.
Defined.

(** After the swipe, the tap on [a]: one sample, and no probability map
    nor search key set for it. *)
Lemma tap_run_leaves_no_geometric_data_witness :
  mSampledInputSize Sample.swipe3_then_tap = 1
  /\ mCharProbabilities Sample.swipe3_then_tap = []
  /\ mSampledSearchKeySets Sample.swipe3_then_tap = []
  /\ mMostProbableString Sample.swipe3_then_tap = mMostProbableString Sample.swipe3
  /\ getProbability Sample.swipe3_then_tap 0 0 = None
  /\ isKeyInSerchKeysAfterIndex 64 Sample.swipe3_then_tap 0 0 = None.
Proof.
  destruct (tap_run_leaves_no_geometric_data Sample.swipe3 0 Sample.maxLength
              Sample.layout (Some [97]) 1 (Some [102]) (Some [200]) (Some [0])
              (Some [0]) Sample.swipe3_then_tap 64)
    as (Hprob & Hsets & _ & _ & _ & _ & Hstring & Hget & Hkey);
    [vm_compute; reflexivity|vm_compute; reflexivity|].
  split; [vm_compute; reflexivity|].
  split; [exact Hprob|]. split; [exact Hsets|]. split; [exact Hstring|].
  split; [apply Hget|apply Hkey].
Defined.

(** After the swipe, the tap on [a]: the search key sets are cleared, the
    search key vectors of the swipe are still there. *)
Lemma search_key_vectors_not_cleared_witness :
  mSampledSearchKeyVectors Sample.swipe3_then_tap = [[0; 1; 2]; [0; 1; 2]; [0; 1; 2]]
  /\ mSampledSearchKeySets Sample.swipe3_then_tap = [].
Proof.
  destruct (search_key_vectors_not_cleared Sample.swipe3 0 Sample.maxLength
              Sample.layout (Some [97]) 1 (Some [102]) (Some [200]) (Some [0])
              (Some [0]) false Sample.swipe3_then_tap) as [Hvectors Hsets];
    [vm_compute; reflexivity|left; reflexivity|].
  split.
  - rewrite Hvectors. vm_compute. reflexivity.
  - apply Hsets. vm_compute. reflexivity.
Defined.

(** After the tap on [a], the swipe: the proximity lists are zeroed, the
    primary input word of the tap is still there. *)
Lemma proximities_only_for_taps_of_pointer_0_witness :
  mInputProximities Sample.tap_a_then_swipe3
  = replicate (Z.to_nat (MAX_PROXIMITY_CHARS_SIZE * MAX_WORD_LENGTH)) 0
  /\ mPrimaryInputWord Sample.tap_a_then_swipe3 = mPrimaryInputWord Sample.tap_a
  /\ mNormalizedSquaredDistances Sample.tap_a_then_swipe3
     = mNormalizedSquaredDistances Sample.tap_a.
Proof.
  apply (proximities_only_for_taps_of_pointer_0 Sample.tap_a 0 Sample.maxLength
           Sample.layout None 3 (Some [0; 50; 100]) (Some [0; 0; 0])
           (Some [0; 30; 60]) (Some [0; 0; 0]) true Sample.tap_a_then_swipe3).
  - vm_compute. reflexivity.
  - left. reflexivity.
Defined.

(** The tap on [a], then the same tap followed by a second one: the
    continuation check accepts the extension, and the call starts again
    from raw point 0 all the same, the state having one sample. *)
Lemma fewer_than_two_samples_restart_witness :
  mIsContinuationPossible Sample.tap_a_extended = true
  /\ continues Sample.tap_a Sample.tap_a_extended = false
  /\ sampled_of Sample.tap_a_extended
     = (updateTouchPoints Sample.layout Sample.maxLength
          (mInputProximities Sample.tap_a_extended) [102; 180] [200; 200]
          (Some [0; 10]) (Some [0; 0]) 2 false 0 0 no_samples).2.
Proof.
  split; [vm_compute; reflexivity|].
  apply (fewer_than_two_samples_restart Sample.tap_a 0 Sample.maxLength Sample.layout
           (Some [97; 115]) 2 (Some [102; 180]) (Some [200; 200]) (Some [0; 10])
           (Some [0; 0]) false Sample.tap_a_extended).
  - vm_compute. reflexivity.
  - vm_compute. lia.
Defined.

(** The swipe, from its first to its last sample, against the key [s]. *)
Lemma getLineToKeyDistance_in_range_witness :
  exists x0 y0 x1 y1,
    mSampledInputXs Sample.swipe3 !! Z.to_nat 0 = Some x0
    /\ mSampledInputYs Sample.swipe3 !! Z.to_nat 0 = Some y0
    /\ mSampledInputXs Sample.swipe3 !! Z.to_nat 2 = Some x1
    /\ mSampledInputYs Sample.swipe3 !! Z.to_nat 2 = Some y1
    /\ getLineToKeyDistance Sample.swipe3 0 2 1 false
       = Some (pointToLineSegSquaredDistanceFloat
                 (getKeyCenterXOfKeyIdG Sample.layout 1)
                 (getKeyCenterYOfKeyIdG Sample.layout 1) x0 y0 x1 y1 false).
Proof.
  apply (getLineToKeyDistance_in_range Sample.swipe3 Sample.layout 0 2 1 false).
  - vm_compute. reflexivity.
  - vm_compute. discriminate.
  - vm_compute. discriminate.
  - vm_compute. discriminate.
  - vm_compute. split; [discriminate|reflexivity].
  - vm_compute. split; [discriminate|reflexivity].
Defined.

(** The state after the call without coordinates. *)
Lemma queries_without_samples_witness :
  getProbability Sample.swipe3_then_nothing 0 2 = None
  /\ isKeyInSerchKeysAfterIndex 64 Sample.swipe3_then_nothing 0 2 = None
  /\ hasSpaceProximity Sample.swipe3_then_nothing 0 = None
  /\ getLineToKeyDistance Sample.swipe3_then_nothing 0 0 2 false = Some Float32.zero.
Proof.
  apply (queries_without_samples Sample.swipe3_then_nothing 64).
  vm_compute. reflexivity.
Defined.

(** After the swipe, the tap on [a]: probability zero with the string of
    the swipe. *)
Lemma getMostProbableString_stale_witness :
  getMostProbableString Sample.swipe3_then_tap
  = (Float32.zero, mMostProbableString Sample.swipe3)
  /\ mMostProbableString Sample.swipe3
     <> replicate (Z.to_nat MAX_WORD_LENGTH) 0.
Proof.
  split.
  - apply (getMostProbableString_stale Sample.swipe3 0 Sample.maxLength Sample.layout
             (Some [97]) 1 (Some [102]) (Some [200]) (Some [0]) (Some [0]) false
             Sample.swipe3_then_tap).
    + vm_compute. reflexivity.
    + left. reflexivity.
  - vm_compute. discriminate.
Defined.

(** The second sample of the swipe and the key 2. *)
Lemma isKeyInSerchKeysAfterIndex_bounds_witness :
  0 <= 2 < 64
  /\ 0 <= 1 < mSampledInputSize Sample.swipe3
  /\ exists searchKeys,
       mSampledSearchKeySets Sample.swipe3 !! Z.to_nat 1 = Some searchKeys
       /\ (true = true <-> 2 ∈ searchKeys).
Proof.
  apply (isKeyInSerchKeysAfterIndex_bounds 64 Sample.swipe3 1 2 true).
  vm_compute. reflexivity.
Defined.

End SampleMore.
